(** * BogoBeautyFaceAnalysis: facial colour extraction and virtual make-up

    A shallow embedding of [recommender_helper.py]: hex/RGB conversion,
    brightness and darkening, nearest-swatch selection with the
    darken-until-darker loop, mean colour extraction under a mask, alpha
    compositing, and the landmark mask builder.

    Conventions
    - a colour is a triple of Python integers, modelled as [Z * Z * Z];
    - an image is a grid (list of rows) of BGR pixels, a mask a grid of
      integers; [uint8] stores are written out with [u8];
    - a Python [float] is a binary64.  Every float this module computes from
      integer channels is a multiple of 2^-56, so it is represented by the
      integer numerator over 2^56, and every operation rounds the exact
      result to 53 significant bits, ties to even (module [Binary64]);
    - the landmark dictionary is a [gmap Z (Z * Z)];
    - exceptions are results ([Raise]), the unbounded [while] loop takes
      fuel ([Diverge] when it runs out). *)

From Stdlib Require Import ZArith QArith Qround Lia List Bool Ascii String.
From Stdlib Require Import Floats.SpecFloat.
From stdpp Require Import base option list gmap.
Import ListNotations.

Local Open Scope Z_scope.

(* ===================================================================== *)
(** ** Binary64 arithmetic on the values this program computes           *)
(* ===================================================================== *)

Module Binary64.

(** The float [x] is represented by the integer [x * 2^56].  Overflow is not
    modelled: the values of this program stay far below 2^1024. *)
Definition frac_bits : Z := 56.
Definition one : Z := 2 ^ frac_bits.

(** [n / 2^k] rounded to the nearest integer, ties to even, scaled back. *)
Definition rne_drop (k n : Z) : Z :=
  let q := n / 2 ^ k in
  let r := n mod 2 ^ k in
  let h := 2 ^ (k - 1) in
  if r <? h then q * 2 ^ k
  else if h <? r then (q + 1) * 2 ^ k
  else if Z.even q then q * 2 ^ k else (q + 1) * 2 ^ k.

(** Rounding of a non-negative numerator to 53 significant bits. *)
Definition round53_pos (n : Z) : Z :=
  let k := Z.log2 n - 52 in
  if k <=? 0 then n else rne_drop k n.

(** Round to nearest even is symmetric around zero. *)
Definition round53 (n : Z) : Z := Z.sgn n * round53_pos (Z.abs n).

(** The literals of the source, each the binary64 nearest to the decimal:
    0.299 = 5386305154335113 * 2^-54, 0.587 = 5287225962532962 * 2^-53,
    0.114 = 8214565720323785 * 2^-56, 0.9 = 8106479329266893 * 2^-53. *)
Definition lit_0_299 : Z := 5386305154335113 * 2 ^ 2.
Definition lit_0_587 : Z := 5287225962532962 * 2 ^ 3.
Definition lit_0_114 : Z := 8214565720323785.
Definition lit_0_9 : Z := 8106479329266893 * 2 ^ 3.

(** [float(c)] for a Python integer [c], as an integer value: [c] itself
    below 2^53, rounded above. *)
Definition int_value (c : Z) : Z := round53 c.

(** [x * c] and [c * x] for a float [x] and a Python integer [c]. *)
Definition mul_int (x c : Z) : Z := round53 (x * int_value c).

(** [x + y] on floats. *)
Definition add (x y : Z) : Z := round53 (x + y).

(** [int(x)]: truncation towards zero. *)
Definition trunc (x : Z) : Z := Z.quot x one.

(** [np.sqrt(n)] for an integer [n], 0 <= n < 2^53: the root rounded to 53
    significant bits.  With [f] the integer root of the scaled argument, the
    root lies above [f + 1/2] exactly when the remainder exceeds [f]; a tie
    cannot occur. *)
Definition sqrt_int (n : Z) : Z :=
  if n <=? 0 then 0
  else
    let e := Z.log2 n / 2 in
    let scaled := n * 2 ^ (2 * (52 - e)) in
    let f := Z.sqrt scaled in
    let m := if f <? scaled - f * f then f + 1 else f in
    m * 2 ^ (e + 4).

(** [x >= y] on floats; every value here is finite, so the comparison is
    that of the numerators. *)
Definition geb (x y : Z) : bool := y <=? x.

(** The same values in the Standard Library's IEEE 754 specification, used
    to cross-check the representation on concrete inputs. *)
Definition prec : Z := 53.
Definition emax : Z := 1024.

Definition SF_of_int (c : Z) : spec_float := binary_normalize prec emax c 0 false.

Definition SF_literal (num den : Z) : spec_float :=
  SFdiv prec emax (SF_of_int num) (SF_of_int den).

Definition of_SF (f : spec_float) : option Z :=
  match f with
  | S754_zero _ => Some 0
  | S754_finite s m e =>
      if 0 <=? e + frac_bits
      then Some ((if s then -1 else 1) * (Z.pos m * 2 ^ (e + frac_bits)))
      else None
  | _ => None
  end.

End Binary64.

(* ===================================================================== *)
(** ** Colours                                                            *)
(* ===================================================================== *)

Definition color : Type := Z * Z * Z.

(** [calculate_brightness]: 0.299 * c[0] + 0.587 * c[1] + 0.114 * c[2],
    evaluated left to right in binary64. *)
Definition calculate_brightness (c : color) : Z :=
  let '(c0, c1, c2) := c in
  Binary64.add
    (Binary64.add (Binary64.mul_int Binary64.lit_0_299 c0)
                  (Binary64.mul_int Binary64.lit_0_587 c1))
    (Binary64.mul_int Binary64.lit_0_114 c2).

(** The same expression in exact arithmetic, in thousandths. *)
Definition brightness_milli (c : color) : Z :=
  let '(c0, c1, c2) := c in 299 * c0 + 587 * c1 + 114 * c2.

(** One channel of [darken_color]: max(0, int(c * factor)), factor 0.9. *)
Definition darken_channel (c : Z) : Z :=
  Z.max 0 (Binary64.trunc (Binary64.mul_int Binary64.lit_0_9 c)).

(** [darken_color(color, factor=0.9)]. *)
Definition darken_color (c : color) : color :=
  let '(c0, c1, c2) := c in
  (darken_channel c0, darken_channel c1, darken_channel c2).

Definition nonneg_color (c : color) : Prop :=
  let '(c0, c1, c2) := c in 0 <= c0 /\ 0 <= c1 /\ 0 <= c2.

Definition in_range (c : color) : Prop :=
  let '(c0, c1, c2) := c in
  0 <= c0 <= 255 /\ 0 <= c1 <= 255 /\ 0 <= c2 <= 255.

Definition black : color := (0, 0, 0).

(** [darken_color] applied [n] times. *)
Fixpoint darken_iter (n : nat) (c : color) : color :=
  match n with
  | O => c
  | S n' => darken_iter n' (darken_color c)
  end.

(** [darken_channel] applied [n] times. *)
Fixpoint darken_channel_iter (n : nat) (c : Z) : Z :=
  match n with
  | O => c
  | S n' => darken_channel_iter n' (darken_channel c)
  end.

(** The 256 values of a channel, and a 6 x 6 x 6 grid of colours. *)
Definition channel_values : list Z := List.map Z.of_nat (List.seq 0 256).

Definition color_grid : list color :=
  let steps := List.map (fun n => 51 * Z.of_nat n) (List.seq 0 6) in
  List.flat_map (fun c0 =>
    List.flat_map (fun c1 => List.map (fun c2 => (c0, c1, c2)) steps) steps) steps.

(** [calculate_brightness] and the product of [darken_color] in the
    Standard Library's IEEE 754 specification. *)
Definition SF_brightness (c : color) : spec_float :=
  let '(c0, c1, c2) := c in
  let mul := SFmul Binary64.prec Binary64.emax in
  let add := SFadd Binary64.prec Binary64.emax in
  add (add (mul (Binary64.SF_literal 299 1000) (Binary64.SF_of_int c0))
           (mul (Binary64.SF_literal 587 1000) (Binary64.SF_of_int c1)))
      (mul (Binary64.SF_literal 114 1000) (Binary64.SF_of_int c2)).

Definition SF_darken_product (c : Z) : spec_float :=
  SFmul Binary64.prec Binary64.emax (Binary64.SF_of_int c) (Binary64.SF_literal 9 10).

Definition SF_sqrt_int (n : Z) : spec_float :=
  SFsqrt Binary64.prec Binary64.emax (Binary64.SF_of_int n).

(** Agreement of a representation with an IEEE value. *)
Definition agrees (x : Z) (f : spec_float) : bool :=
  match Binary64.of_SF f with
  | Some v => v =? x
  | None => false
  end.

(* ===================================================================== *)
(** ** Exceptions and divergence                                          *)
(* ===================================================================== *)

Inductive exn : Type := ValueError | IndexError | CvError.

(** The outcome of a call: a value, a raised exception, or a loop that has
    not finished with the fuel it was given. *)
Inductive result (A : Type) : Type :=
| Ok (a : A)
| Raise (e : exn)
| Diverge.

Arguments Ok {A} a.
Arguments Raise {A} e.
Arguments Diverge {A}.

#[global] Instance result_ret : MRet result := fun A a => Ok a.

#[global] Instance result_bind : MBind result := fun A B f m =>
  match m with
  | Ok a => f a
  | Raise e => Raise e
  | Diverge => Diverge
  end.

(* ===================================================================== *)
(** ** HEX <-> RGB                                                        *)
(* ===================================================================== *)

Definition ord (c : ascii) : Z := Z.of_N (N_of_ascii c).

(** Characters that [int()] skips around the digits of a [str]. *)
Definition is_space (c : ascii) : bool :=
  ((9 <=? ord c) && (ord c <=? 13)) || ((28 <=? ord c) && (ord c <=? 32)).

Definition hex_digit_value (c : ascii) : option Z :=
  let n := ord c in
  if (48 <=? n) && (n <=? 57) then Some (n - 48)
  else if (97 <=? n) && (n <=? 102) then Some (n - 87)
  else if (65 <=? n) && (n <=? 70) then Some (n - 55)
  else None.

Definition is_hex_digit (c : ascii) : bool :=
  match hex_digit_value c with Some _ => true | None => false end.

(** [str.lstrip("#")]: every leading '#' is removed. *)
Fixpoint lstrip_hash (s : string) : string :=
  match s with
  | String c r => if Ascii.eqb c "#" then lstrip_hash r else s
  | EmptyString => s
  end.

Fixpoint lstrip_space (s : string) : string :=
  match s with
  | String c r => if is_space c then lstrip_space r else s
  | EmptyString => s
  end.

Fixpoint rstrip_space (s : string) : string :=
  match s with
  | String c r =>
      match rstrip_space r with
      | EmptyString => if is_space c then EmptyString else String c EmptyString
      | r' => String c r'
      end
  | EmptyString => s
  end.

Fixpoint hex_value (acc : Z) (s : string) : option Z :=
  match s with
  | EmptyString => Some acc
  | String c r =>
      match hex_digit_value c with
      | Some d => hex_value (16 * acc + d) r
      | None => None
      end
  end.

(** [int(s, 16)] on a slice of at most two characters, where neither the
    0x prefix nor a digit-separating underscore of the full grammar can
    occur: optional surrounding blanks, an optional sign, then one or more
    hexadecimal digits; anything else is a ValueError. *)
Definition int_base16 (s : string) : result Z :=
  let body := rstrip_space (lstrip_space s) in
  let '(sign, digits) :=
    match body with
    | String "+" r => (1, r)
    | String "-" r => (-1, r)
    | _ => (1, body)
    end in
  match digits with
  | EmptyString => Raise ValueError
  | _ => match hex_value 0 digits with
         | Some v => Ok (sign * v)
         | None => Raise ValueError
         end
  end.

(** [hex_to_rgb]: tuple(int(h[i:i+2], 16) for i in (0, 2, 4)). *)
Definition hex_to_rgb (hex_color : string) : result color :=
  let hex_color := lstrip_hash hex_color in
  c0 ← int_base16 (substring 0 2 hex_color);
  c1 ← int_base16 (substring 2 2 hex_color);
  c2 ← int_base16 (substring 4 2 hex_color);
  Ok (c0, c1, c2).

Definition hex_digit_char (d : Z) : ascii :=
  if d <? 10 then ascii_of_N (Z.to_N (48 + d)) else ascii_of_N (Z.to_N (87 + d)).

Fixpoint hex_digits (fuel : nat) (n : Z) (acc : string) : string :=
  let acc' := String (hex_digit_char (n mod 16)) acc in
  match fuel with
  | O => acc'
  | S fuel' => if n / 16 =? 0 then acc' else hex_digits fuel' (n / 16) acc'
  end.

(** [format(n, 'x')] for n >= 0; a number has no more hex digits than bits. *)
Definition hex_of_nonneg (n : Z) : string :=
  hex_digits (Z.to_nat (Z.log2 n)) n EmptyString.

(** The replacement field [{:02x}]: lower-case hexadecimal, sign included in
    a minimum width of two, padded with zeros. *)
Definition format_02x (n : Z) : string :=
  if n <? 0 then String "-" (hex_of_nonneg (- n))
  else
    let s := hex_of_nonneg n in
    if (String.length s <? 2)%nat then String "0" s else s.

(** [rgb_to_hex]: "#{:02x}{:02x}{:02x}".format( *rgb). *)
Definition rgb_to_hex (rgb : color) : string :=
  let '(c0, c1, c2) := rgb in
  String "#" (format_02x c0 ++ format_02x c1 ++ format_02x c2).

(** ASCII lower-casing, to compare hex strings without regard to case. *)
Definition lower_ascii (c : ascii) : ascii :=
  if (65 <=? ord c) && (ord c <=? 90) then ascii_of_N (Z.to_N (ord c + 32)) else c.

Fixpoint lower (s : string) : string :=
  match s with
  | EmptyString => EmptyString
  | String c r => String (lower_ascii c) (lower r)
  end.

Definition eq_nocase (s t : string) : Prop := lower s = lower t.

Fixpoint all_hex (s : string) : bool :=
  match s with
  | EmptyString => true
  | String c r => is_hex_digit c && all_hex r
  end.

(** Six hexadecimal digits, and the same behind one '#'. *)
Definition is_hex6 (s : string) : bool := (String.length s =? 6)%nat && all_hex s.

Definition well_formed_hex (s : string) : bool :=
  match s with
  | String c r => if Ascii.eqb c "#" then is_hex6 r else is_hex6 s
  | EmptyString => false
  end.

(** [s] with its '#', added when it has none. *)
Definition with_hash (s : string) : string :=
  match s with
  | String c r => if Ascii.eqb c "#" then s else String "#" s
  | EmptyString => String "#" s
  end.

(** The 22 hexadecimal digits. *)
Definition hex_chars : list ascii :=
  list_ascii_of_string "0123456789abcdefABCDEF".

(** The round trip of one byte: two digits in, a value in 0..255, and the
    same two digits in lower case out. *)
Definition byte_round_trip (a b : ascii) : bool :=
  match int_base16 (String a (String b EmptyString)) with
  | Ok v =>
      (0 <=? v) && (v <=? 255)
      && String.eqb (format_02x v) (String (lower_ascii a) (String (lower_ascii b) EmptyString))
  | _ => false
  end.

(** The round trip [rgb_to_hex(hex_to_rgb(s))]. *)
Definition hex_round_trip (s : string) : result string :=
  rgb ← hex_to_rgb s; Ok (rgb_to_hex rgb).

(* ===================================================================== *)
(** ** Palette matcher                                                    *)
(* ===================================================================== *)

(** One entry of the colour scheme JSON; only its "hex" key is read. *)
Record swatch : Type := { hex : string }.

Record color_scheme : Type := {
  foundation_colors : list swatch;
  eyeshadow_colors : list swatch;
  lipstick_colors : list swatch
}.

(** [calculate_color_distance]: np.sqrt(np.sum((a - b) ** 2)). *)
Definition calculate_color_distance (color1 color2 : color) : Z :=
  let '(a0, a1, a2) := color1 in
  let '(b0, b1, b2) := color2 in
  Binary64.sqrt_int ((a0 - b0) ^ 2 + (a1 - b1) ^ 2 + (a2 - b2) ^ 2).

(** The scan of Python's [min(items, key=key)]: a later item replaces the
    current one only when its key is strictly smaller. *)
Fixpoint min_scan {A : Type} (key : A -> result Z) (best : A) (best_key : Z)
    (items : list A) : result A :=
  match items with
  | [] => Ok best
  | x :: rest =>
      k ← key x;
      if k <? best_key then min_scan key x k rest
      else min_scan key best best_key rest
  end.

(** [min(items, key=key)]; an empty sequence is a ValueError. *)
Definition py_min {A : Type} (key : A -> result Z) (items : list A) : result A :=
  match items with
  | [] => Raise ValueError
  | x :: rest => k ← key x; min_scan key x k rest
  end.

(** The key of the three searches:
    calculate_color_distance(hex_to_rgb(s['hex']), target). *)
Definition distance_key (target : color) (s : swatch) : result Z :=
  rgb ← hex_to_rgb (hex s); Ok (calculate_color_distance rgb target).

(** The loop
      while lipstick_brightness >= foundation_brightness:
          lipstick_color = darken_color(lipstick_color, factor=0.9)
          lipstick_brightness = calculate_brightness(lipstick_color)
    with one unit of fuel per iteration. *)
Fixpoint darken_until (fuel : nat) (foundation_brightness : Z)
    (lipstick_color : color) (lipstick_brightness : Z) : result color :=
  if Binary64.geb lipstick_brightness foundation_brightness then
    match fuel with
    | O => Diverge
    | S fuel' =>
        let lipstick_color := darken_color lipstick_color in
        let lipstick_brightness := calculate_brightness lipstick_color in
        darken_until fuel' foundation_brightness lipstick_color lipstick_brightness
    end
  else Ok lipstick_color.

(** [recommend_complementary_colors]. *)
Definition recommend_complementary_colors (fuel : nat)
    (average_skin_color average_lip_color : color) (scheme : color_scheme)
    : result (color * color * color) :=
  closest_foundation ← py_min (distance_key average_skin_color) (foundation_colors scheme);
  closest_eyeshadow ← py_min (distance_key average_skin_color) (eyeshadow_colors scheme);
  foundation_rgb ← hex_to_rgb (hex closest_foundation);
  let foundation_brightness := calculate_brightness foundation_rgb in
  closest_lipstick ← py_min (distance_key average_lip_color) (lipstick_colors scheme);
  lipstick_color ← hex_to_rgb (hex closest_lipstick);
  let lipstick_brightness := calculate_brightness lipstick_color in
  lipstick_color ← darken_until fuel foundation_brightness lipstick_color lipstick_brightness;
  foundation_rgb ← hex_to_rgb (hex closest_foundation);
  eyeshadow_rgb ← hex_to_rgb (hex closest_eyeshadow);
  Ok (foundation_rgb, eyeshadow_rgb, lipstick_color).

(** The call neither returns nor raises, whatever the fuel. *)
Definition never_returns {A : Type} (run : nat -> result A) : Prop :=
  forall fuel, run fuel = Diverge.

Definition well_formed_scheme (scheme : color_scheme) : Prop :=
  Forall (fun s => well_formed_hex (hex s) = true)
    (foundation_colors scheme ++ eyeshadow_colors scheme ++ lipstick_colors scheme).

(** A scheme of one swatch per category whose foundation is black. *)
Definition black_foundation_scheme : color_scheme := {|
  foundation_colors := [{| hex := "#000000" |}];
  eyeshadow_colors := [{| hex := "#8b5a2b" |}];
  lipstick_colors := [{| hex := "#c21e56" |}]
|}.

(** A scheme with a grey foundation (100, 100, 100) and a lighter grey
    lipstick (150, 150, 150). *)
Definition grey_scheme : color_scheme := {|
  foundation_colors := [{| hex := "#646464" |}];
  eyeshadow_colors := [{| hex := "#112233" |}];
  lipstick_colors := [{| hex := "#969696" |}]
|}.

(** A foundation (1, 0, 160) and a lipstick (0, 31, 3): both have the exact
    brightness 18.539. *)
Definition tie_scheme : color_scheme := {|
  foundation_colors := [{| hex := "#0100a0" |}];
  eyeshadow_colors := [{| hex := "#112233" |}];
  lipstick_colors := [{| hex := "#001f03" |}]
|}.

Definition some_category_empty (scheme : color_scheme) : Prop :=
  foundation_colors scheme = [] \/ eyeshadow_colors scheme = [] \/ lipstick_colors scheme = [].

(* ===================================================================== *)
(** ** Images and masks                                                   *)
(* ===================================================================== *)

(** A BGR pixel of an OpenCV image, an image as rows of pixels, a
    single-channel mask as rows of integers. *)
Definition pixel : Type := Z * Z * Z.
Definition image : Type := list (list pixel).
Definition mask : Type := list (list Z).

(** A store of a Python integer into a [uint8] array; a value out of range
    wraps, as under NumPy 1. *)
Definition u8 (x : Z) : Z := x mod 256.

Definition u8_pixel (p : pixel) : Prop :=
  let '(b, g, r) := p in 0 <= b <= 255 /\ 0 <= g <= 255 /\ 0 <= r <= 255.

Definition u8_image (img : image) : Prop := Forall (Forall u8_pixel) img.

(** Two rows, then two grids, combined cell by cell; arrays of different
    sizes make the NumPy or OpenCV call raise [e]. *)
Fixpoint zip_rows {A B C : Type} (e : exn) (f : A -> B -> C)
    (l : list A) (k : list B) : result (list C) :=
  match l, k with
  | [], [] => Ok []
  | a :: l', b :: k' => r ← zip_rows e f l' k'; Ok (f a b :: r)
  | _, _ => Raise e
  end.

Fixpoint zip_grid {A B C : Type} (e : exn) (f : A -> B -> C)
    (g : list (list A)) (h : list (list B)) : result (list (list C)) :=
  match g, h with
  | [], [] => Ok []
  | r :: g', s :: h' =>
      row ← zip_rows e f r s;
      rest ← zip_grid e f g' h';
      Ok (row :: rest)
  | _, _ => Raise e
  end.

(** [m.max()]; a zero-size array has no maximum. *)
Definition grid_max (m : mask) : result Z :=
  match concat m with
  | [] => Raise ValueError
  | x :: rest => Ok (fold_left Z.max rest x)
  end.

(** One pixel of cv2.bitwise_and(frame, frame, mask=m): the pixel and-ed
    with itself where the mask is non-zero, zero elsewhere. *)
Definition bitwise_and_masked (p : pixel) (mv : Z) : pixel :=
  let '(b, g, r) := p in
  if mv =? 0 then (0, 0, 0) else (Z.land b b, Z.land g g, Z.land r r).

(** (masked > [0, 0, 0]).all(axis=2) at one pixel. *)
Definition all_channels_positive (p : pixel) : bool :=
  let '(b, g, r) := p in (0 <? b) && (0 <? g) && (0 <? r).

(** A pixel that is not black: some channel is non-zero. *)
Definition non_black (p : pixel) : bool :=
  let '(b, g, r) := p in negb ((b =? 0) && (g =? 0) && (r =? 0)).

Definition sum_channel (f : pixel -> Z) (pixels : list pixel) : Z :=
  fold_right (fun p acc => f p + acc) 0 pixels.

Definition blue (p : pixel) : Z := let '(b, _, _) := p in b.
Definition green (p : pixel) : Z := let '(_, g, _) := p in g.
Definition red (p : pixel) : Z := let '(_, _, r) := p in r.

(** int(np.mean(pixels, axis=0)[i]): the sum of bytes is exact in binary64
    and the quotient, for fewer than 2^45 pixels, rounds to a float with the
    same integer part. *)
Definition mean_channel (f : pixel -> Z) (pixels : list pixel) : Z :=
  Z.quot (sum_channel f pixels) (Z.of_nat (length pixels)).

(** The body shared, up to the fallback, by [compute_mean_skin_color] and
    [compute_mean_lip_color]; the mask is a two-dimensional integer array. *)
Definition compute_mean_color (fallback : color) (frame : image) (m : mask)
    : result color :=
  let m := map (map u8) m in
  top ← grid_max m;
  let m := if top =? 1 then map (map (fun v => u8 (v * 255))) m else m in
  masked ← zip_grid CvError bitwise_and_masked frame m;
  let pixels := List.filter all_channels_positive (concat masked) in
  match pixels with
  | [] => Ok fallback
  | _ => Ok (mean_channel red pixels, mean_channel green pixels, mean_channel blue pixels)
  end.

Definition skin_fallback : color := (200, 180, 160).
Definition lip_fallback : color := (150, 50, 70).

Definition compute_mean_skin_color (frame : image) (face_mask : mask) : result color :=
  compute_mean_color skin_fallback frame face_mask.

Definition compute_mean_lip_color (frame : image) (lips_mask : mask) : result color :=
  compute_mean_color lip_fallback frame lips_mask.

(* ===================================================================== *)
(** ** Compositor                                                         *)
(* ===================================================================== *)

(** [int(x)] on a rational. *)
Definition Qtrunc (x : Q) : Z := Z.quot (Qnum x) (Z.pos (Qden x)).

(** cvRound: to the nearest integer, ties to even. *)
Definition cvRound (x : Q) : Z :=
  let f := Qfloor x in
  match (x - inject_Z f ?= 1 # 2)%Q with
  | Lt => f
  | Gt => f + 1
  | Eq => if Z.even f then f else f + 1
  end.

(** saturate_cast<uchar>. *)
Definition saturate_u8 (v : Z) : Z := Z.max 0 (Z.min 255 v).

(** One channel of cv2.addWeighted(src1, alpha, src2, beta, 0):
    saturate_cast<uchar>(src1 * alpha + src2 * beta + gamma).  The weights are
    rationals and the weighted sum is exact before cvRound, which is what
    OpenCV computes whenever the opacity is a short binary fraction such as
    0, 1/4, 1/2 or 1. *)
Definition add_weighted (a : Z) (alpha : Q) (b : Z) (beta : Q) : Z :=
  saturate_u8 (cvRound (inject_Z a * alpha + inject_Z b * beta + 0)%Q).

Definition pixel4 : Type := Z * Z * Z * Z.

(** cv2.COLOR_BGR2BGRA and cv2.COLOR_BGRA2BGR. *)
Definition bgr2bgra (p : pixel) : pixel4 := let '(b, g, r) := p in (b, g, r, 255).
Definition bgra2bgr (p : pixel4) : pixel := let '(b, g, r, _) := p in (b, g, r).

Definition add_weighted_pixel (alpha beta : Q) (p q : pixel4) : pixel4 :=
  let '(p0, p1, p2, p3) := p in
  let '(q0, q1, q2, q3) := q in
  (add_weighted p0 alpha q0 beta, add_weighted p1 alpha q1 beta,
   add_weighted p2 alpha q2 beta, add_weighted p3 alpha q3 beta).

(** [apply_makeup_directly(image, mask, makeup_color, opacity)]. *)
Definition apply_makeup_directly (img : image) (m : mask) (makeup_color : color)
    (opacity : Q) : result image :=
  let '(c0, c1, c2) := makeup_color in
  let makeup_bgra : pixel4 := (u8 c0, u8 c1, u8 c2, u8 (Qtrunc (opacity * 255)%Q)) in
  makeup_layer ←
    zip_grid IndexError (fun (_ : pixel) mv => if mv =? 0 then (0, 0, 0, 0) else makeup_bgra) img m;
  let image_bgra := map (map bgr2bgra) img in
  image_bgra ←
    zip_grid CvError (add_weighted_pixel (1 - opacity)%Q opacity) image_bgra makeup_layer;
  Ok (map (map bgra2bgr) image_bgra).

(** What the calls above do to one pixel [p] under the mask value [mv]: the
    overlay holds the make-up colour where the mask is non-zero and zeros
    elsewhere, and the weighted sum is taken in both cases. *)
Definition composite_pixel (makeup_color : color) (opacity : Q) (p : pixel) (mv : Z)
    : pixel :=
  let '(b, g, r) := p in
  let '(c0, c1, c2) := makeup_color in
  let '(l0, l1, l2) := if mv =? 0 then (0, 0, 0) else (u8 c0, u8 c1, u8 c2) in
  (add_weighted b (1 - opacity)%Q l0 opacity,
   add_weighted g (1 - opacity)%Q l1 opacity,
   add_weighted r (1 - opacity)%Q l2 opacity).

(** The cell at row [y], column [x] of a grid. *)
Definition cell_at {A : Type} (g : list (list A)) (y x : nat) : option A :=
  row ← g !! y; row !! x.

(* ===================================================================== *)
(** ** Mask builder                                                       *)
(* ===================================================================== *)

(** Landmarks of features from MediaPipe, in the order of the dictionary. *)
Definition face_points : list (string * list Z) := [
  ("BLUSH_LEFT"%string, [50]);
  ("BLUSH_RIGHT"%string, [280]);
  ("LEFT_EYE"%string,
     [33; 246; 161; 160; 159; 158; 157; 173; 133; 155; 154; 153; 145; 144; 163; 7; 33]);
  ("RIGHT_EYE"%string,
     [362; 298; 384; 385; 386; 387; 388; 466; 263; 249; 390; 373; 374; 380; 381; 382; 362]);
  ("EYELINER_LEFT"%string,
     [243; 112; 26; 22; 23; 24; 110; 25; 226; 130; 33; 7; 163; 144; 145; 153; 154; 155;
      133; 243]);
  ("EYELINER_RIGHT"%string,
     [463; 362; 382; 381; 380; 374; 373; 390; 249; 263; 359; 446; 255; 339; 254; 253;
      252; 256; 341; 463]);
  ("EYESHADOW_LEFT"%string,
     [226; 247; 30; 29; 27; 28; 56; 190; 243; 173; 157; 158; 159; 160; 161; 246; 33; 130;
      226]);
  ("EYESHADOW_RIGHT"%string,
     [463; 414; 286; 258; 257; 259; 260; 467; 446; 359; 263; 466; 388; 387; 386; 385;
      384; 398; 362; 463]);
  ("FACE"%string,
     [152; 148; 176; 149; 150; 136; 172; 58; 132; 93; 234; 127; 162; 21; 54; 103; 67; 109;
      10; 338; 297; 332; 284; 251; 389; 454; 323; 401; 361; 435; 288; 397; 365; 379; 378;
      400; 377; 152]);
  ("LIP_UPPER"%string,
     [61; 185; 40; 39; 37; 0; 267; 269; 270; 409; 291; 308; 415; 310; 312; 13; 82; 81; 80;
      191; 78]);
  ("LIP_LOWER"%string,
     [61; 146; 91; 181; 84; 17; 314; 405; 321; 375; 291; 308; 324; 402; 317; 14; 87; 178;
      88; 95; 78; 61]);
  ("EYEBROW_LEFT"%string, [55; 107; 66; 105; 63; 70; 46; 53; 52; 65; 55]);
  ("EYEBROW_RIGHT"%string, [285; 336; 296; 334; 293; 300; 276; 283; 295; 285])
].

(** Features to remove. *)
Definition features_to_remove : list string := ["LEFT_EYE"%string; "RIGHT_EYE"%string].

(** np.zeros((h, w), dtype=np.uint8). *)
Definition zeros (h w : nat) : mask := replicate h (replicate w 0).

(** [idx_to_coordinates[idx] for idx in feature_points if idx in idx_to_coordinates]. *)
Definition resolve (idx_to_coordinates : gmap Z (Z * Z)) (feature_points : list Z)
    : list (Z * Z) :=
  omap (fun idx => idx_to_coordinates !! idx) feature_points.

(** cv2.fillPoly(mask, [points], colour) is OpenCV's; the builder takes it as
    [fillPoly].  What the builder relies on: the array keeps its size and
    every cell either keeps its value or receives the colour. *)
Definition paints (v : Z) (before after : mask) : Prop :=
  Forall2 (Forall2 (fun old new => new = old \/ new = v)) before after.

Definition polygon_filler : Type := mask -> list (Z * Z) -> Z -> mask.

Definition filler_paints (fillPoly : polygon_filler) : Prop :=
  forall m points v, paints v m (fillPoly m points v).

(** The two loops of [add_reverse_mask_and_lips] over a table of regions
    [regions] and a removal list [removed]; [mask_shape] is mask.shape[:2]
    and [face_connections] is not read. *)
Definition add_reverse_mask_and_lips_on (fillPoly : polygon_filler)
    (regions : list (string * list Z)) (removed : list string)
    (mask_shape : nat * nat) (idx_to_coordinates : gmap Z (Z * Z))
    (face_connections lip_connections : list Z) : mask * mask :=
  let '(h, w) := mask_shape in
  let face_mask :=
    fold_left (fun face_mask '(feature, feature_points) =>
      if existsb (String.eqb feature) removed then face_mask
      else
        match resolve idx_to_coordinates feature_points with
        | [] => face_mask
        | points => fillPoly face_mask points 255
        end)
      regions (zeros h w) in
  let lips_mask :=
    match resolve idx_to_coordinates lip_connections with
    | [] => zeros h w
    | lips_points => fillPoly (zeros h w) lips_points 255
    end in
  (face_mask, lips_mask).

(** [add_reverse_mask_and_lips], on the module's [face_points] and
    [features_to_remove]. *)
Definition add_reverse_mask_and_lips (fillPoly : polygon_filler)
    (mask_shape : nat * nat) (idx_to_coordinates : gmap Z (Z * Z))
    (face_connections lip_connections : list Z) : mask * mask :=
  add_reverse_mask_and_lips_on fillPoly face_points features_to_remove
    mask_shape idx_to_coordinates face_connections lip_connections.

Definition has_shape (h w : nat) (m : mask) : Prop :=
  length m = h /\ Forall (fun row => length row = w) m.

Definition all_zero (m : mask) : Prop := Forall (Forall (fun v => v = 0)) m.

Definition binary_mask (m : mask) : Prop := Forall (Forall (fun v => v = 0 \/ v = 255)) m.

(** A filler that satisfies [filler_paints], exact on axis-parallel
    rectangles: it fills the bounding box of the points. *)
Fixpoint paint_row (inside : Z -> bool) (v : Z) (x : Z) (row : list Z) : list Z :=
  match row with
  | [] => []
  | old :: rest => (if inside x then v else old) :: paint_row inside v (x + 1) rest
  end.

Fixpoint paint_rows (inside : Z -> Z -> bool) (v : Z) (y : Z) (m : mask) : mask :=
  match m with
  | [] => []
  | row :: rest => paint_row (inside y) v 0 row :: paint_rows inside v (y + 1) rest
  end.

Definition fill_bounding_box : polygon_filler := fun m points v =>
  match points with
  | [] => m
  | (x0, y0) :: rest =>
      let xmin := fold_left Z.min (map fst rest) x0 in
      let xmax := fold_left Z.max (map fst rest) x0 in
      let ymin := fold_left Z.min (map snd rest) y0 in
      let ymax := fold_left Z.max (map snd rest) y0 in
      paint_rows (fun y x => (xmin <=? x) && (x <=? xmax) && (ymin <=? y) && (y <=? ymax))
        v 0 m
  end.

(** What the builder maintains of a mask under construction. *)
Definition well_built (h w : nat) (m : mask) : Prop := has_shape h w m /\ binary_mask m.

(** Four landmarks on a 4 x 5 template, as index -> (x, y). *)
Definition sample_landmarks : gmap Z (Z * Z) :=
  list_to_map [(61, (1, 1)); (17, (3, 2)); (50, (0, 3)); (33, (4, 0))].

(* ===================================================================== *)
(** ** Further definitions                                                *)
(* ===================================================================== *)

(** One byte written by [{:02x}] and read back by [int(_, 16)]: two
    lower-case hexadecimal digits that parse to the byte. *)
Definition byte_format_parse (c : Z) : bool :=
  match format_02x c with
  | String a (String b EmptyString) =>
      is_hex_digit a && is_hex_digit b
      && Ascii.eqb (lower_ascii a) a && Ascii.eqb (lower_ascii b) b
      && match int_base16 (String a (String b EmptyString)) with
         | Ok v => v =? c
         | _ => false
         end
  | _ => false
  end.

(** The sum under the root of [calculate_color_distance]. *)
Definition squared_distance (color1 color2 : color) : Z :=
  let '(a0, a1, a2) := color1 in
  let '(b0, b1, b2) := color2 in
  (a0 - b0) ^ 2 + (a1 - b1) ^ 2 + (a2 - b2) ^ 2.



(** A palette of three foundations, two eye shadows and two lipsticks. *)
Definition sample_scheme : color_scheme := {|
  foundation_colors := [{| hex := "#f1c27d" |}; {| hex := "#c68642" |}; {| hex := "#8d5524" |}];
  eyeshadow_colors := [{| hex := "#8B5A2B" |}; {| hex := "#D2B48C" |}];
  lipstick_colors := [{| hex := "#c21e56" |}; {| hex := "#ffb6c1" |}]
|}.


(** A palette without lipsticks. *)
Definition no_lipstick_scheme : color_scheme := {|
  foundation_colors := [{| hex := "#f1c27d" |}];
  eyeshadow_colors := [{| hex := "#8B5A2B" |}];
  lipstick_colors := []
|}.

(** Two grids of the same height whose rows have the same widths. *)
Definition same_shape {A B : Type} (g : list (list A)) (h : list (list B)) : Prop :=
  Forall2 (fun r s => length r = length s) g h.

(** An image, and a mask, with one value in every cell. *)
Definition uniform_image (h w : nat) (p : pixel) : image := replicate h (replicate w p).
Definition uniform_mask (h w : nat) (v : Z) : mask := replicate h (replicate w v).


(** The landmark indices the face loop looks up: those of the regions that
    are not in the removal list. *)
Definition painted_indices (regions : list (string * list Z)) (removed : list string)
    : list Z :=
  flat_map (fun '(feature, feature_points) =>
              if existsb (String.eqb feature) removed then [] else feature_points) regions.

(** ** Landmark reader *)

(** A normalised landmark of MediaPipe's face mesh. *)
Module MediaPipe.
Record landmark : Type := { lx : Q; ly : Q }.
End MediaPipe.

(** FaceMesh(refine_landmarks=True).process(image).multi_face_landmarks and
    mp_drawing._normalized_to_pixel_coordinates are MediaPipe's; the reader
    takes them as [process] and [to_px]. *)
Definition face_mesh : Type := image -> option (list (list MediaPipe.landmark)).
Definition pixel_mapper : Type := Q -> Q -> nat -> nat -> option (Z * Z).

(** image.shape[0], image.shape[1] of an image with at least one row. *)
Definition shape (img : image) : nat * nat := (length img, length (hd [] img)).

Fixpoint enumerate_from {A : Type} (start : Z) (l : list A) : list (Z * A) :=
  match l with
  | [] => []
  | a :: rest => (start, a) :: enumerate_from (start + 1) rest
  end.

Definition enumerate {A : Type} (l : list A) : list (Z * A) := enumerate_from 0 l.

(** The loop of [read_landmarks] from a dictionary [landmark_cordinates]. *)
Definition read_landmarks_loop (to_px : pixel_mapper) (w h : nat)
    (indexed : list (Z * MediaPipe.landmark)) (landmark_cordinates : gmap Z (Z * Z))
    : gmap Z (Z * Z) :=
  fold_left (fun landmark_cordinates '(idx, landmark) =>
      match to_px (MediaPipe.lx landmark) (MediaPipe.ly landmark) w h with
      | Some landmark_px => <[idx := landmark_px]> landmark_cordinates
      | None => landmark_cordinates
      end) indexed landmark_cordinates.

(** [read_landmarks]: None without a face; otherwise the pixel coordinates of
    the first face's landmarks by index. *)
Definition read_landmarks (process : face_mesh) (to_px : pixel_mapper) (img : image)
    : result (option (gmap Z (Z * Z))) :=
  match process img with
  | None => Ok None
  | Some multi_face_landmarks =>
      match multi_face_landmarks with
      | [] => Raise IndexError
      | face_landmarks :: _ =>
          let '(h, w) := shape img in
          Ok (Some (read_landmarks_loop to_px w h (enumerate face_landmarks) ∅))
      end
  end.

(** What the reader stores under [idx] for a face [face_landmarks]. *)
Definition pixel_of_landmark (to_px : pixel_mapper) (w h : nat)
    (face_landmarks : list MediaPipe.landmark) (idx : Z) : option (Z * Z) :=
  if idx <? 0 then None
  else lm ← face_landmarks !! Z.to_nat idx;
       to_px (MediaPipe.lx lm) (MediaPipe.ly lm) w h.

(** A mapper in the manner of MediaPipe's: nothing outside the unit square,
    otherwise the coordinates scaled to the frame, floored and clipped. *)
Definition scale_to_frame : pixel_mapper := fun x y w h =>
  if Qle_bool 0 x && Qle_bool x 1 && Qle_bool 0 y && Qle_bool y 1 then
    Some (Z.min (Qfloor (x * inject_Z (Z.of_nat w))) (Z.of_nat w - 1),
          Z.min (Qfloor (y * inject_Z (Z.of_nat h))) (Z.of_nat h - 1))
  else None.

(** A detector that reports two faces of two landmarks each, and one that
    reports a face beside the frame. *)
Definition two_faces : face_mesh := fun _ =>
  Some [[MediaPipe.Build_landmark (1 # 2) (1 # 4); MediaPipe.Build_landmark (3 # 2) (1 # 4)];
        [MediaPipe.Build_landmark (1 # 8) (1 # 8); MediaPipe.Build_landmark (1 # 8) (1 # 8)]].

Definition face_off_frame : face_mesh := fun _ =>
  Some [[MediaPipe.Build_landmark (3 # 2) (1 # 4); MediaPipe.Build_landmark (-1 # 2) (1 # 4)]].

(** ** Label tables of the recognition service *)

Definition eye_color_label : list (string * Z) :=
  [("blue", 0); ("brown", 1); ("dark", 2); ("dark brown", 3); ("gray", 4);
   ("green", 5)]%string.
Definition hair_color_label : list (string * Z) :=
  [("black", 0); ("blonde", 1); ("brown", 2); ("dark", 3); ("dark brown", 4);
   ("gray", 5); ("light brown", 6); ("red", 7)]%string.
Definition eyebrow_color_label : list (string * Z) :=
  [("black", 0); ("blonde", 1); ("brown", 2); ("dark", 3); ("dark brown", 4);
   ("gray", 5)]%string.
Definition skin_tone_label : list (string * Z) :=
  [("dark", 0); ("fair", 1); ("light", 2); ("medium", 3)]%string.

Definition get_labels : list (string * Z) * list (string * Z) * list (string * Z)
                        * list (string * Z) :=
  (eye_color_label, hair_color_label, eyebrow_color_label, skin_tone_label).

(** {v: k for k, v in mapping.items()} *)
Definition invert (mapping : list (string * Z)) : gmap Z string :=
  fold_left (fun inv '(k, v) => <[v := k]> inv) mapping ∅.

Definition eye_color_inv : gmap Z string := invert eye_color_label.
Definition hair_color_inv : gmap Z string := invert hair_color_label.
Definition eyebrow_color_inv : gmap Z string := invert eyebrow_color_label.
Definition skin_tone_inv : gmap Z string := invert skin_tone_label.

(** inv.get(pred, "Unknown") *)
Definition get_label (inv : gmap Z string) (pred : Z) : string :=
  default "Unknown"%string (inv !! pred).

(* ===================================================================== *)
(** * Properties                                                          *)
(* ===================================================================== *)

(** ** Rounding to 53 bits *)

Module Rounding.
Import Binary64.

Lemma rne_drop_bounds k n :
  0 < k -> n / 2 ^ k * 2 ^ k <= rne_drop k n <= (n / 2 ^ k + 1) * 2 ^ k.
Proof.
  intros Hk. unfold rne_drop.
  assert (0 < 2 ^ k) by (apply Z.pow_pos_nonneg; lia).
  repeat case_match; nia.
Qed.

Lemma rne_drop_mono k n m :
  0 < k -> n <= m -> rne_drop k n <= rne_drop k m.
Proof.
  intros Hk Hnm.
  assert (HP : 0 < 2 ^ k) by (apply Z.pow_pos_nonneg; lia).
  destruct (Z.eq_dec (n / 2 ^ k) (m / 2 ^ k)) as [Heq | Hne].
  - assert (Hr : n mod 2 ^ k <= m mod 2 ^ k).
    { pose proof (Z.div_mod n (2 ^ k)). pose proof (Z.div_mod m (2 ^ k)). nia. }
    unfold rne_drop. rewrite Heq.
    repeat case_match; try lia; try nia.
  - assert (n / 2 ^ k + 1 <= m / 2 ^ k).
    { pose proof (Z.div_le_mono n m (2 ^ k) HP Hnm). lia. }
    pose proof (rne_drop_bounds k n Hk). pose proof (rne_drop_bounds k m Hk). nia.
Qed.

(** Rounding stays within the binade of its argument. *)
Lemma round53_pos_bounds n :
  0 < n -> 2 ^ Z.log2 n <= round53_pos n <= 2 ^ (Z.log2 n + 1).
Proof.
  intros Hn. pose proof (Z.log2_spec n Hn) as [Hlo Hhi].
  replace (Z.succ (Z.log2 n)) with (Z.log2 n + 1) in Hhi by lia.
  unfold round53_pos. cbv zeta.
  destruct (Z.leb_spec (Z.log2 n - 52) 0) as [Hk | Hk]; [lia |].
  set (k := Z.log2 n - 52) in *.
  assert (HP : 0 < 2 ^ k) by (apply Z.pow_pos_nonneg; lia).
  assert (E0 : 2 ^ Z.log2 n = 2 ^ 52 * 2 ^ k).
  { rewrite <- Z.pow_add_r by lia. f_equal. lia. }
  assert (E1 : 2 ^ (Z.log2 n + 1) = 2 ^ 53 * 2 ^ k).
  { rewrite <- Z.pow_add_r by lia. f_equal. lia. }
  pose proof (rne_drop_bounds k n Hk) as [Hb1 Hb2].
  assert (2 ^ 52 <= n / 2 ^ k) by (apply Z.div_le_lower_bound; lia).
  assert (n / 2 ^ k < 2 ^ 53) by (apply Z.div_lt_upper_bound; lia).
  rewrite E0, E1. split; nia.
Qed.

Lemma round53_pos_mono n m :
  0 <= n -> n <= m -> round53_pos n <= round53_pos m.
Proof.
  intros Hn Hnm.
  destruct (Z.eq_dec n 0) as [-> | Hn0].
  { destruct (Z.eq_dec m 0) as [-> | Hm0]; [lia |].
    pose proof (round53_pos_bounds m ltac:(lia)).
    assert (0 < 2 ^ Z.log2 m) by (apply Z.pow_pos_nonneg; [lia | apply Z.log2_nonneg]).
    change (round53_pos 0) with 0. lia. }
  pose proof (Z.log2_le_mono n m Hnm) as Hl.
  destruct (Z.eq_dec (Z.log2 n) (Z.log2 m)) as [Heq | Hne].
  - unfold round53_pos. cbv zeta. rewrite Heq.
    destruct (Z.leb_spec (Z.log2 m - 52) 0); [lia |].
    apply rne_drop_mono; lia.
  - pose proof (round53_pos_bounds n ltac:(lia)) as [_ Hb].
    pose proof (round53_pos_bounds m ltac:(lia)) as [Ha _].
    assert (2 ^ (Z.log2 n + 1) <= 2 ^ Z.log2 m) by (apply Z.pow_le_mono_r; lia).
    lia.
Qed.

Lemma round53_nonneg n : 0 <= n -> round53 n = round53_pos n.
Proof.
  intros Hn. unfold round53. destruct (Z.eq_dec n 0) as [-> | Hn0]; [reflexivity |].
  rewrite Z.sgn_pos, Z.abs_eq by lia. lia.
Qed.

(** Rounding is monotone: the fact behind every brightness comparison. *)
Lemma round53_mono n m : 0 <= n -> n <= m -> round53 n <= round53 m.
Proof.
  intros Hn Hnm. rewrite !round53_nonneg by lia. by apply round53_pos_mono.
Qed.

Lemma round53_0 : round53 0 = 0.
Proof. reflexivity. Qed.

Lemma round53_ge_0 n : 0 <= n -> 0 <= round53 n.
Proof. intros Hn. rewrite <- round53_0. apply round53_mono; lia. Qed.

(** Integers below 2^53 are floats. *)
Lemma round53_small n : 0 <= n < 2 ^ 53 -> round53 n = n.
Proof.
  intros [Hn Hlt]. rewrite round53_nonneg by lia. unfold round53_pos. cbv zeta.
  destruct (Z.eq_dec n 0) as [-> | Hn0]; [reflexivity |].
  assert (Z.log2 n < 53) by (apply Z.log2_lt_pow2; lia).
  destruct (Z.leb_spec (Z.log2 n - 52) 0); [reflexivity | lia].
Qed.

Lemma mul_int_mono x c d :
  0 <= x -> 0 <= c -> c <= d -> mul_int x c <= mul_int x d.
Proof.
  intros Hx Hc Hcd. unfold mul_int, int_value.
  pose proof (round53_ge_0 c Hc). pose proof (round53_mono c d Hc Hcd).
  apply round53_mono; nia.
Qed.

Lemma mul_int_ge_0 x c : 0 <= x -> 0 <= c -> 0 <= mul_int x c.
Proof.
  intros Hx Hc. unfold mul_int, int_value.
  pose proof (round53_ge_0 c Hc). apply round53_ge_0. nia.
Qed.

Lemma add_mono x y x' y' :
  0 <= x -> 0 <= y -> x <= x' -> y <= y' -> add x y <= add x' y'.
Proof. intros. unfold add. apply round53_mono; lia. Qed.

Lemma add_ge_0 x y : 0 <= x -> 0 <= y -> 0 <= add x y.
Proof. intros. unfold add. apply round53_ge_0. lia. Qed.

(** Rounding moves a value by at most half a unit in the last place. *)
Lemma rne_drop_error k n : 0 < k -> Z.abs (rne_drop k n - n) <= 2 ^ (k - 1).
Proof.
  intros Hk.
  assert (HP : 2 ^ k = 2 * 2 ^ (k - 1)).
  { rewrite <- Z.pow_succ_r by lia. f_equal. lia. }
  assert (Hh : 0 < 2 ^ (k - 1)) by (apply Z.pow_pos_nonneg; lia).
  pose proof (Z.div_mod n (2 ^ k) ltac:(lia)) as Hn.
  pose proof (Z.mod_pos_bound n (2 ^ k) ltac:(lia)) as Hr.
  unfold rne_drop. cbv zeta.
  set (q := n / 2 ^ k) in *. set (r := n mod 2 ^ k) in *. set (h := 2 ^ (k - 1)) in *.
  rewrite HP in *.
  repeat case_match; lia.
Qed.

(** Below 256 the rounding error is at most 2^10 / 2^56 = 2^-46. *)
Lemma round53_error n : 0 <= n < 2 ^ 64 -> Z.abs (round53 n - n) <= 2 ^ 10.
Proof.
  intros [Hn Hlt]. rewrite round53_nonneg by lia. unfold round53_pos. cbv zeta.
  destruct (Z.leb_spec (Z.log2 n - 52) 0) as [Hk | Hk];
    [rewrite Z.sub_diag; discriminate |].
  assert (0 < n) by (destruct (Z.eq_dec n 0) as [-> |]; [discriminate Hk | lia]).
  assert (Z.log2 n < 64) by (apply Z.log2_lt_pow2; lia).
  pose proof (rne_drop_error (Z.log2 n - 52) n Hk).
  assert (2 ^ (Z.log2 n - 52 - 1) <= 2 ^ 10) by (apply Z.pow_le_mono_r; lia).
  lia.
Qed.

(** The literals are the correctly rounded quotients. *)
Example literals_agree :
  agrees lit_0_299 (SF_literal 299 1000) = true /\
  agrees lit_0_587 (SF_literal 587 1000) = true /\
  agrees lit_0_114 (SF_literal 114 1000) = true /\
  agrees lit_0_9 (SF_literal 9 10) = true.
Proof. repeat split; vm_compute; reflexivity. Qed.

(** The product of [darken_color] agrees with IEEE 754 on every channel value. *)
Example darken_product_agrees :
  forallb (fun c => agrees (mul_int lit_0_9 c) (SF_darken_product c)) channel_values = true.
Proof. vm_compute. reflexivity. Qed.

(** [calculate_brightness] agrees with IEEE 754 on a grid of colours, and on
    colours with negative and with very large channels. *)
Example brightness_agrees :
  forallb (fun c => agrees (calculate_brightness c) (SF_brightness c))
    (color_grid ++ [(1, 2, 3); (17, 0, 254); (200, 180, 160); (150, 50, 70);
                    (-3, 5, 7); (3, -5, 7); (-1, -1, -1);
                    (100000, 3, 12345678901234567890)]) = true.
Proof. vm_compute. reflexivity. Qed.

(** The square root agrees with IEEE 754 on squares, non-squares and the
    largest distance between two colours. *)
Example sqrt_agrees :
  forallb (fun n => agrees (sqrt_int n) (SF_sqrt_int n))
    [0; 1; 2; 3; 4; 5; 17; 99; 100; 65025; 195075; 1000000007; 2 ^ 52 + 1; 2 ^ 53 - 1]
  = true.
Proof. vm_compute. reflexivity. Qed.

End Rounding.

(** ** Brightness and darkening *)

Lemma channel_values_complete c : 0 <= c <= 255 -> In c channel_values.
Proof.
  intros Hc. unfold channel_values. apply in_map_iff.
  exists (Z.to_nat c). split; [lia |]. apply in_seq. lia.
Qed.

(** A boolean property checked on the 256 channel values holds of each. *)
Lemma forallb_channel (P : Z -> bool) :
  forallb P channel_values = true -> forall c, 0 <= c <= 255 -> P c = true.
Proof.
  intros H c Hc. rewrite forallb_forall in H. apply H, channel_values_complete, Hc.
Qed.

(** On a byte, [int(c * 0.9)] is the floor of 9c/10: the float product never
    falls below an integer that the exact product reaches. *)
Lemma darken_channel_floor c : 0 <= c <= 255 -> darken_channel c = c * 9 / 10.
Proof.
  intros Hc. apply Z.eqb_eq.
  apply (forallb_channel (fun c => darken_channel c =? c * 9 / 10)); [| exact Hc].
  vm_compute. reflexivity.
Qed.

Lemma darken_channel_le c : 0 <= c <= 255 -> 0 <= darken_channel c <= c.
Proof.
  intros Hc. rewrite darken_channel_floor by exact Hc.
  split; [apply Z.div_pos; lia |]. apply Z.div_le_upper_bound; lia.
Qed.

Lemma darken_channel_0 : darken_channel 0 = 0.
Proof. reflexivity. Qed.

Lemma darken_color_in_range c : in_range c -> in_range (darken_color c).
Proof.
  destruct c as [[c0 c1] c2]. intros (H0 & H1 & H2). cbn.
  pose proof (darken_channel_le c0 H0). pose proof (darken_channel_le c1 H1).
  pose proof (darken_channel_le c2 H2). lia.
Qed.

Lemma darken_iter_in_range n c : in_range c -> in_range (darken_iter n c).
Proof.
  revert c. induction n as [| n IH]; intros c Hc; [exact Hc |].
  cbn. apply IH, darken_color_in_range, Hc.
Qed.

Lemma darken_iter_S n c : darken_iter (S n) c = darken_color (darken_iter n c).
Proof.
  revert c. induction n as [| n IH]; intros c; [reflexivity |].
  change (darken_iter (S (S n)) c) with (darken_iter (S n) (darken_color c)).
  rewrite IH. reflexivity.
Qed.

Lemma darken_iter_channels n c0 c1 c2 :
  darken_iter n (c0, c1, c2)
  = (darken_channel_iter n c0, darken_channel_iter n c1, darken_channel_iter n c2).
Proof.
  revert c0 c1 c2. induction n as [| n IH]; intros; [reflexivity |]. cbn. apply IH.
Qed.

Lemma darken_channel_iter_0 n : darken_channel_iter n 0 = 0.
Proof. induction n as [| n IH]; [reflexivity |]. cbn. rewrite darken_channel_0. exact IH. Qed.

Lemma darken_channel_iter_add n k c :
  darken_channel_iter (n + k) c = darken_channel_iter k (darken_channel_iter n c).
Proof.
  revert c. induction n as [| n IH]; intros c; [reflexivity |]. cbn. apply IH.
Qed.

(** Thirty-seven steps take every byte to zero (255 needs all of them). *)
Lemma darken_channel_iter_37 c : 0 <= c <= 255 -> darken_channel_iter 37 c = 0.
Proof.
  intros Hc. apply Z.eqb_eq.
  apply (forallb_channel (fun c => darken_channel_iter 37 c =? 0)); [| exact Hc].
  vm_compute. reflexivity.
Qed.

Lemma darken_channel_iter_ge_37 n c :
  0 <= c <= 255 -> (37 <= n)%nat -> darken_channel_iter n c = 0.
Proof.
  intros Hc Hn. replace n with (37 + (n - 37))%nat by lia.
  rewrite darken_channel_iter_add, darken_channel_iter_37 by exact Hc.
  apply darken_channel_iter_0.
Qed.

(** The float brightness is monotone in each non-negative channel. *)
Lemma calculate_brightness_mono c0 c1 c2 d0 d1 d2 :
  0 <= c0 <= d0 -> 0 <= c1 <= d1 -> 0 <= c2 <= d2 ->
  calculate_brightness (c0, c1, c2) <= calculate_brightness (d0, d1, d2).
Proof.
  intros H0 H1 H2. unfold calculate_brightness.
  assert (L299 : 0 <= Binary64.lit_0_299) by (vm_compute; discriminate).
  assert (L587 : 0 <= Binary64.lit_0_587) by (vm_compute; discriminate).
  assert (L114 : 0 <= Binary64.lit_0_114) by (vm_compute; discriminate).
  apply Rounding.add_mono.
  - apply Rounding.add_ge_0; apply Rounding.mul_int_ge_0; lia.
  - apply Rounding.mul_int_ge_0; lia.
  - apply Rounding.add_mono; try (apply Rounding.mul_int_ge_0; lia);
      apply Rounding.mul_int_mono; lia.
  - apply Rounding.mul_int_mono; lia.
Qed.

Lemma calculate_brightness_ge_0 c0 c1 c2 :
  0 <= c0 -> 0 <= c1 -> 0 <= c2 -> 0 <= calculate_brightness (c0, c1, c2).
Proof.
  intros. change 0 with (calculate_brightness (0, 0, 0)) at 1.
  apply calculate_brightness_mono; lia.
Qed.

(** The float brightness is the exact one up to 8 * 10^6 / (1000 * 2^56),
    about 10^-13: the three literals and five roundings. *)
Lemma calculate_brightness_error c :
  in_range c ->
  Z.abs (1000 * calculate_brightness c - 2 ^ 56 * brightness_milli c) <= 8000000.
Proof.
  destruct c as [[c0 c1] c2]. intros (H0 & H1 & H2).
  unfold calculate_brightness, brightness_milli, Binary64.add, Binary64.mul_int,
    Binary64.int_value.
  rewrite !(Rounding.round53_small c0), !(Rounding.round53_small c1),
    !(Rounding.round53_small c2) by lia.
  assert (L299 : Binary64.lit_0_299 = 21545220617340452) by reflexivity.
  assert (L587 : Binary64.lit_0_587 = 42297807700263696) by reflexivity.
  assert (L114 : Binary64.lit_0_114 = 8214565720323785) by reflexivity.
  rewrite L299, L587, L114.
  pose proof (Rounding.round53_error (21545220617340452 * c0) ltac:(lia)) as E0.
  pose proof (Rounding.round53_error (42297807700263696 * c1) ltac:(lia)) as E1.
  pose proof (Rounding.round53_error (8214565720323785 * c2) ltac:(lia)) as E2.
  pose proof (Rounding.round53_ge_0 (21545220617340452 * c0) ltac:(lia)) as P0.
  pose proof (Rounding.round53_ge_0 (42297807700263696 * c1) ltac:(lia)) as P1.
  pose proof (Rounding.round53_ge_0 (8214565720323785 * c2) ltac:(lia)) as P2.
  set (p0 := Binary64.round53 (21545220617340452 * c0)) in *.
  set (p1 := Binary64.round53 (42297807700263696 * c1)) in *.
  set (p2 := Binary64.round53 (8214565720323785 * c2)) in *.
  pose proof (Rounding.round53_error (p0 + p1) ltac:(lia)) as E3.
  pose proof (Rounding.round53_ge_0 (p0 + p1) ltac:(lia)) as P3.
  set (s := Binary64.round53 (p0 + p1)) in *.
  pose proof (Rounding.round53_error (s + p2) ltac:(lia)) as E4.
  lia.
Qed.

(** Hence the float comparison decides like the exact one whenever the exact
    brightnesses differ (they differ by at least 1/1000). *)
Lemma calculate_brightness_order c d :
  in_range c -> in_range d ->
  brightness_milli c < brightness_milli d -> calculate_brightness c < calculate_brightness d.
Proof.
  intros Hc Hd Hlt.
  pose proof (calculate_brightness_error c Hc). pose proof (calculate_brightness_error d Hd).
  lia.
Qed.

Lemma darken_color_brightness_le c :
  in_range c -> calculate_brightness (darken_color c) <= calculate_brightness c.
Proof.
  destruct c as [[c0 c1] c2]. intros (H0 & H1 & H2). cbn [darken_color].
  pose proof (darken_channel_le c0 H0). pose proof (darken_channel_le c1 H1).
  pose proof (darken_channel_le c2 H2).
  apply calculate_brightness_mono; lia.
Qed.

(** The same in exact arithmetic. *)
Lemma darken_color_brightness_milli_le c :
  in_range c -> brightness_milli (darken_color c) <= brightness_milli c.
Proof.
  destruct c as [[c0 c1] c2]. intros (H0 & H1 & H2). cbn.
  pose proof (darken_channel_le c0 H0). pose proof (darken_channel_le c1 H1).
  pose proof (darken_channel_le c2 H2). lia.
Qed.

(** C9: for every colour with channels in [0, 255], the brightness computed
    by [calculate_brightness] never increases along the sequence of repeated
    [darken_color], and the sequence is exactly (0, 0, 0) from the 37th
    application on. *)
Theorem darken_color_fades_to_black (c : color) :
  in_range c ->
  (forall n, calculate_brightness (darken_iter (S n) c)
             <= calculate_brightness (darken_iter n c))
  /\ (forall n, (37 <= n)%nat -> darken_iter n c = black).
Proof.
  intros Hc. split.
  - intros n. rewrite darken_iter_S.
    apply darken_color_brightness_le, darken_iter_in_range, Hc.
  - intros n Hn. destruct c as [[c0 c1] c2]. destruct Hc as (H0 & H1 & H2).
    rewrite darken_iter_channels.
    rewrite !darken_channel_iter_ge_37 by assumption. reflexivity.
Qed.

Lemma darken_color_fades_to_black_witness :
  in_range (200, 100, 50) /\
  calculate_brightness (darken_iter 1 (200, 100, 50))
    <= calculate_brightness (darken_iter 0 (200, 100, 50)) /\
  darken_iter 37 (200, 100, 50) = black.
Proof.
  assert (H : in_range (200, 100, 50)) by (cbn; lia).
  split; [exact H |].
  destruct (darken_color_fades_to_black (200, 100, 50) H) as [Hmono Hblack].
  split; [apply (Hmono 0%nat) | apply (Hblack 37%nat); lia].
Defined.

(** ** HEX <-> RGB *)

Lemma is_hex_digit_enum c : is_hex_digit c = true -> In c hex_chars.
Proof.
  destruct c as [[] [] [] [] [] [] [] []]; vm_compute; intros H;
    first [discriminate H | tauto].
Qed.

Lemma hex_digit_not_hash c : is_hex_digit c = true -> Ascii.eqb c "#" = false.
Proof.
  intros H. apply is_hex_digit_enum in H.
  assert (E : forallb (fun c => negb (Ascii.eqb c "#")) hex_chars = true) by reflexivity.
  rewrite forallb_forall in E. apply E in H. by apply negb_true_iff.
Qed.

Lemma is_hex6_inv d :
  is_hex6 d = true ->
  exists a1 a2 a3 a4 a5 a6,
    d = String a1 (String a2 (String a3 (String a4 (String a5 (String a6 EmptyString)))))
    /\ is_hex_digit a1 = true /\ is_hex_digit a2 = true /\ is_hex_digit a3 = true
    /\ is_hex_digit a4 = true /\ is_hex_digit a5 = true /\ is_hex_digit a6 = true.
Proof.
  unfold is_hex6. intros H. apply andb_true_iff in H as [Hlen Hall].
  apply Nat.eqb_eq in Hlen.
  do 6 (destruct d as [| ? d]; [discriminate Hlen |]).
  destruct d; [| discriminate Hlen].
  cbn in Hall. repeat (apply andb_true_iff in Hall as [? Hall]).
  do 6 eexists. split; [reflexivity |]. tauto.
Qed.

Lemma byte_round_trip_hex a b :
  is_hex_digit a = true -> is_hex_digit b = true -> byte_round_trip a b = true.
Proof.
  intros Ha Hb. apply is_hex_digit_enum in Ha, Hb.
  assert (E : forallb (fun a => forallb (byte_round_trip a) hex_chars) hex_chars = true)
    by (vm_compute; reflexivity).
  rewrite forallb_forall in E. specialize (E a Ha).
  rewrite forallb_forall in E. exact (E b Hb).
Qed.

Lemma byte_round_trip_spec a b :
  byte_round_trip a b = true ->
  exists v, int_base16 (String a (String b EmptyString)) = Ok v
            /\ 0 <= v <= 255
            /\ format_02x v = String (lower_ascii a) (String (lower_ascii b) EmptyString).
Proof.
  unfold byte_round_trip. destruct (int_base16 _) as [v | |]; try discriminate.
  intros H. apply andb_true_iff in H as [H Hs]. apply andb_true_iff in H as [H0 H1].
  exists v. split; [reflexivity |]. split; [lia |]. by apply String.eqb_eq.
Qed.

Lemma hex_to_rgb_digits d :
  is_hex6 d = true ->
  exists rgb, hex_to_rgb d = Ok rgb /\ in_range rgb
              /\ rgb_to_hex rgb = String "#" (lower d).
Proof.
  intros H.
  destruct (is_hex6_inv d H)
    as (a1 & a2 & a3 & a4 & a5 & a6 & -> & H1 & H2 & H3 & H4 & H5 & H6).
  destruct (byte_round_trip_spec a1 a2 (byte_round_trip_hex _ _ H1 H2)) as (v0 & E0 & R0 & F0).
  destruct (byte_round_trip_spec a3 a4 (byte_round_trip_hex _ _ H3 H4)) as (v1 & E1 & R1 & F1).
  destruct (byte_round_trip_spec a5 a6 (byte_round_trip_hex _ _ H5 H6)) as (v2 & E2 & R2 & F2).
  exists (v0, v1, v2). unfold hex_to_rgb.
  cbn [lstrip_hash]. rewrite (hex_digit_not_hash a1 H1).
  cbn [substring]. rewrite E0, E1, E2. cbn [mbind result_bind].
  split; [reflexivity |]. split; [cbn; lia |].
  unfold rgb_to_hex. rewrite F0, F1, F2. reflexivity.
Qed.

Lemma hex_to_rgb_hash r : hex_to_rgb (String "#" r) = hex_to_rgb r.
Proof. reflexivity. Qed.

Lemma hex_to_rgb_well_formed s :
  well_formed_hex s = true ->
  exists rgb, hex_to_rgb s = Ok rgb /\ in_range rgb
              /\ rgb_to_hex rgb = lower (with_hash s).
Proof.
  destruct s as [| c r]; [discriminate |]. unfold well_formed_hex, with_hash.
  destruct (Ascii.eqb_spec c "#") as [-> | Hc]; intros H.
  - rewrite hex_to_rgb_hash. apply hex_to_rgb_digits, H.
  - apply hex_to_rgb_digits, H.
Qed.

Lemma lower_ascii_idem c : lower_ascii (lower_ascii c) = lower_ascii c.
Proof. destruct c as [[] [] [] [] [] [] [] []]; reflexivity. Qed.

Lemma lower_idem s : lower (lower s) = lower s.
Proof. induction s as [| c s IH]; [reflexivity |]. cbn. by rewrite lower_ascii_idem, IH. Qed.

(** C6, amended: for every well-formed string of six hexadecimal digits,
    with or without '#', [rgb_to_hex(hex_to_rgb(s))] is '#' followed by the
    six digits in lower case.  It reproduces [s] up to letter case when [s]
    carries the '#', and reproduces '#' + [s] up to letter case when it does
    not. *)
Theorem hex_round_trip_lower (s : string) :
  well_formed_hex s = true ->
  hex_round_trip s = Ok (lower (with_hash s))
  /\ eq_nocase (lower (with_hash s)) (with_hash s).
Proof.
  intros H. destruct (hex_to_rgb_well_formed s H) as (rgb & E & _ & F).
  split; [| apply lower_idem].
  unfold hex_round_trip. rewrite E. cbn [mbind result_bind]. by rewrite F.
Qed.

Lemma hex_round_trip_lower_witness :
  hex_round_trip "#FFaa00" = Ok "#ffaa00"%string
  /\ eq_nocase "#ffaa00" "#FFaa00"
  /\ hex_round_trip "FFaa00" = Ok "#ffaa00"%string.
Proof.
  destruct (hex_round_trip_lower "#FFaa00" eq_refl) as [H1 H2].
  destruct (hex_round_trip_lower "FFaa00" eq_refl) as [H3 _].
  split; [exact H1 |]. split; [exact H2 | exact H3].
Defined.

(** C6 as stated fails on a string without '#': the round trip of "ff0000"
    is "#ff0000", which differs from the input by more than letter case. *)
Lemma hex_round_trip_adds_hash :
  well_formed_hex "ff0000" = true
  /\ ~ (exists r, hex_round_trip "ff0000" = Ok r /\ eq_nocase r "ff0000").
Proof.
  split; [reflexivity |]. intros (r & Hr & Heq).
  vm_compute in Hr. injection Hr as <-. vm_compute in Heq. discriminate Heq.
Qed.


Lemma darken_iter_37 c : in_range c -> darken_iter 37 c = black.
Proof.
  destruct c as [[c0 c1] c2]. intros (H0 & H1 & H2).
  rewrite darken_iter_channels, !darken_channel_iter_37 by assumption. reflexivity.
Qed.

(** ** Palette matcher *)

Lemma darken_color_nonneg c : nonneg_color (darken_color c).
Proof. destruct c as [[c0 c1] c2]. cbn. unfold darken_channel. lia. Qed.

Lemma calculate_brightness_nonneg c : nonneg_color c -> 0 <= calculate_brightness c.
Proof.
  destruct c as [[c0 c1] c2]. intros (H0 & H1 & H2).
  by apply calculate_brightness_ge_0.
Qed.

(** When the loop exits, the lipstick is strictly darker. *)
Lemma darken_until_exit fuel fb lc lb l :
  lb = calculate_brightness lc ->
  darken_until fuel fb lc lb = Ok l -> calculate_brightness l < fb.
Proof.
  revert lc lb. induction fuel as [| fuel IH]; intros lc lb Hlb; cbn;
    unfold Binary64.geb; destruct (Z.leb_spec fb lb) as [Hge | Hlt]; intros H.
  - discriminate H.
  - injection H as <-. lia.
  - eapply IH; [reflexivity | exact H].
  - injection H as <-. lia.
Qed.

(** A foundation of brightness zero or less is never undercut by a colour
    with non-negative channels: the loop uses up any fuel. *)
Lemma darken_until_stuck fuel fb lc lb :
  fb <= 0 -> 0 <= lb -> darken_until fuel fb lc lb = Diverge.
Proof.
  intros Hfb. revert lc lb. induction fuel as [| fuel IH]; intros lc lb Hlb; cbn;
    unfold Binary64.geb; destruct (Z.leb_spec fb lb) as [Hge | Hlt]; try lia.
  - reflexivity.
  - apply IH, calculate_brightness_nonneg, darken_color_nonneg.
Qed.

(** With a foundation of positive brightness the loop stops at black at the
    latest. *)
Lemma darken_until_stops n fb lc :
  0 < fb -> darken_iter n lc = black ->
  exists l, darken_until n fb lc (calculate_brightness lc) = Ok l.
Proof.
  intros Hfb. revert lc. induction n as [| n IH]; intros lc Hblack; cbn in *;
    unfold Binary64.geb; destruct (Z.leb_spec fb (calculate_brightness lc)) as [Hge | Hlt];
    eauto.
  subst lc. change (calculate_brightness black) with 0 in Hge. lia.
Qed.

Lemma hex_to_rgb_outcome s :
  (exists rgb, hex_to_rgb s = Ok rgb) \/ hex_to_rgb s = Raise ValueError.
Proof.
  assert (P : forall t, (exists v, int_base16 t = Ok v) \/ int_base16 t = Raise ValueError).
  { intros t. unfold int_base16.
    destruct (match rstrip_space (lstrip_space t) with
              | String "+" r => (1, r) | String "-" r => (-1, r)
              | _ => (1, rstrip_space (lstrip_space t)) end) as [sign digits].
    destruct digits; [by right |]. destruct (hex_value 0 _); eauto. }
  unfold hex_to_rgb.
  destruct (P (substring 0 2 (lstrip_hash s))) as [[v0 ->] | ->]; [| by right].
  destruct (P (substring 2 2 (lstrip_hash s))) as [[v1 ->] | ->]; [| by right].
  destruct (P (substring 4 2 (lstrip_hash s))) as [[v2 ->] | ->]; [| by right].
  left. eexists. reflexivity.
Qed.

Lemma distance_key_outcome t s :
  (exists k, distance_key t s = Ok k) \/ distance_key t s = Raise ValueError.
Proof.
  unfold distance_key. destruct (hex_to_rgb_outcome (hex s)) as [[rgb ->] | ->];
    [left; eexists; reflexivity | by right].
Qed.

Lemma min_scan_outcome t best k items :
  (exists x, min_scan (distance_key t) best k items = Ok x /\ (x = best \/ In x items))
  \/ min_scan (distance_key t) best k items = Raise ValueError.
Proof.
  revert best k. induction items as [| y items IH]; intros best k; cbn.
  - left. eauto.
  - destruct (distance_key_outcome t y) as [[ky ->] | ->]; [| by right]. cbn.
    destruct (ky <? k).
    + destruct (IH y ky) as [(x & -> & Hx) | ->]; [left | by right].
      exists x. split; [reflexivity |]. right.
      destruct Hx as [-> | Hx]; [by left | by right].
    + destruct (IH best k) as [(x & -> & Hx) | ->]; [left | by right].
      exists x. split; [reflexivity |].
      destruct Hx as [-> | Hx]; [by left | right; by right].
Qed.

Lemma py_min_outcome t items :
  (exists x, py_min (distance_key t) items = Ok x /\ In x items)
  \/ py_min (distance_key t) items = Raise ValueError.
Proof.
  destruct items as [| y items]; [by right |]. cbn.
  destruct (distance_key_outcome t y) as [[ky ->] | ->]; [| by right]. cbn.
  destruct (min_scan_outcome t y ky items) as [(x & -> & Hx) | ->]; [left | by right].
  exists x. split; [reflexivity |]. destruct Hx; [left | right]; done.
Qed.

Lemma py_min_empty {A} (key : A -> result Z) : py_min key [] = Raise ValueError.
Proof. reflexivity. Qed.

(** The matcher raises as soon as one category is empty, before the loop. *)
Lemma recommend_raises_on_empty_category fuel skin lip scheme :
  some_category_empty scheme ->
  recommend_complementary_colors fuel skin lip scheme = Raise ValueError.
Proof.
  intros Hempty. unfold recommend_complementary_colors.
  destruct (py_min_outcome skin (foundation_colors scheme)) as [(f & -> & Hf) | ->]; [| done].
  cbn [mbind result_bind].
  destruct (py_min_outcome skin (eyeshadow_colors scheme)) as [(e & -> & He) | ->]; [| done].
  cbn [mbind result_bind].
  destruct (hex_to_rgb_outcome (hex f)) as [[frgb ->] | ->]; [| done].
  cbn [mbind result_bind].
  destruct (py_min_outcome lip (lipstick_colors scheme)) as [(l & -> & Hl) | ->]; [| done].
  destruct Hempty as [E | [E | E]]; rewrite E in *; contradiction.
Qed.

Lemma py_min_in t items x : py_min (distance_key t) items = Ok x -> In x items.
Proof.
  intros H. destruct (py_min_outcome t items) as [(y & E & Hy) | E]; rewrite E in H;
    [by injection H as <- | discriminate H].
Qed.

(** What a returned triple is made of. *)
Lemma recommend_inv fuel skin lip scheme foundation eyeshadow lipstick :
  recommend_complementary_colors fuel skin lip scheme = Ok (foundation, eyeshadow, lipstick) ->
  exists f e l lrgb,
    In f (foundation_colors scheme) /\ hex_to_rgb (hex f) = Ok foundation
    /\ In e (eyeshadow_colors scheme) /\ hex_to_rgb (hex e) = Ok eyeshadow
    /\ In l (lipstick_colors scheme) /\ hex_to_rgb (hex l) = Ok lrgb
    /\ darken_until fuel (calculate_brightness foundation) lrgb (calculate_brightness lrgb)
       = Ok lipstick.
Proof.
  unfold recommend_complementary_colors. intros H.
  destruct (py_min _ (foundation_colors scheme)) as [f | |] eqn:Pf; try discriminate H.
  cbn [mbind result_bind] in H.
  destruct (py_min _ (eyeshadow_colors scheme)) as [e | |] eqn:Pe; try discriminate H.
  cbn [mbind result_bind] in H.
  destruct (hex_to_rgb (hex f)) as [frgb | |] eqn:Ef; try discriminate H.
  cbn [mbind result_bind] in H.
  destruct (py_min _ (lipstick_colors scheme)) as [l | |] eqn:Pl; try discriminate H.
  cbn [mbind result_bind] in H.
  destruct (hex_to_rgb (hex l)) as [lrgb | |] eqn:El; try discriminate H.
  cbn [mbind result_bind] in H.
  destruct (darken_until _ _ _ _) as [l' | |] eqn:Ed; try discriminate H.
  cbn [mbind result_bind] in H.
  destruct (hex_to_rgb (hex e)) as [ergb | |] eqn:Ee; try discriminate H.
  cbn [mbind result_bind] in H. injection H as <- <- <-.
  exists f, e, l, lrgb.
  pose proof (py_min_in _ _ _ Pf). pose proof (py_min_in _ _ _ Pe).
  pose proof (py_min_in _ _ _ Pl). tauto.
Qed.

(** C5: whenever [recommend_complementary_colors] returns, the brightness
    of the returned lipstick, as [calculate_brightness] computes it, is
    strictly below that of the returned foundation, or both colours are
    (0, 0, 0). *)
Theorem recommended_lipstick_darker fuel skin lip scheme foundation eyeshadow lipstick :
  recommend_complementary_colors fuel skin lip scheme = Ok (foundation, eyeshadow, lipstick) ->
  calculate_brightness lipstick < calculate_brightness foundation
  \/ (lipstick = black /\ foundation = black).
Proof.
  intros H. left.
  destruct (recommend_inv _ _ _ _ _ _ _ H) as (f & e & l & lrgb & _ & _ & _ & _ & _ & _ & Hd).
  eapply darken_until_exit; [reflexivity | exact Hd].
Qed.

Lemma recommended_lipstick_darker_witness :
  recommend_complementary_colors 4 (200, 180, 160) (150, 50, 70) grey_scheme
    = Ok ((100, 100, 100), (17, 34, 51), (97, 97, 97))
  /\ (calculate_brightness (97, 97, 97) < calculate_brightness (100, 100, 100)
      \/ ((97, 97, 97) = black /\ (100, 100, 100) = black)).
Proof.
  assert (H : recommend_complementary_colors 4 (200, 180, 160) (150, 50, 70) grey_scheme
              = Ok ((100, 100, 100), (17, 34, 51), (97, 97, 97))) by (vm_compute; reflexivity).
  split; [exact H |].
  exact (recommended_lipstick_darker _ _ _ _ _ _ _ H).
Defined.

Lemma in_range_nonneg c : in_range c -> nonneg_color c.
Proof. destruct c as [[c0 c1] c2]. cbn. lia. Qed.

Lemma calculate_brightness_pos c :
  in_range c -> c <> black -> 0 < calculate_brightness c.
Proof.
  destruct c as [[c0 c1] c2]. intros (H0 & H1 & H2) Hne.
  assert (1 <= c0 \/ 1 <= c1 \/ 1 <= c2) as [H | [H | H]].
  { destruct (Z.eq_dec c0 0) as [-> |]; [| lia]. destruct (Z.eq_dec c1 0) as [-> |]; [| lia].
    destruct (Z.eq_dec c2 0) as [-> |]; [| lia]. by destruct Hne. }
  - assert (0 < calculate_brightness (1, 0, 0)) by (vm_compute; reflexivity).
    pose proof (calculate_brightness_mono 1 0 0 c0 c1 c2). lia.
  - assert (0 < calculate_brightness (0, 1, 0)) by (vm_compute; reflexivity).
    pose proof (calculate_brightness_mono 0 1 0 c0 c1 c2). lia.
  - assert (0 < calculate_brightness (0, 0, 1)) by (vm_compute; reflexivity).
    pose proof (calculate_brightness_mono 0 0 1 c0 c1 c2). lia.
Qed.

Lemma distance_key_well_formed t s :
  well_formed_hex (hex s) = true -> exists k, distance_key t s = Ok k.
Proof.
  intros H. destruct (hex_to_rgb_well_formed _ H) as (rgb & E & _).
  unfold distance_key. rewrite E. eexists. reflexivity.
Qed.

Lemma py_min_well_formed t items :
  Forall (fun s => well_formed_hex (hex s) = true) items -> items <> [] ->
  exists x, py_min (distance_key t) items = Ok x /\ In x items.
Proof.
  intros Hwf Hne.
  destruct (py_min_outcome t items) as [? | Hraise]; [done |]. exfalso.
  destruct items as [| y items]; [done |]. cbn in Hraise.
  inversion Hwf as [| ? ? Hy Hrest]; subst.
  destruct (distance_key_well_formed t y Hy) as [ky Eky]. rewrite Eky in Hraise.
  cbn in Hraise. clear Eky Hy Hwf Hne. revert y ky Hraise.
  induction Hrest as [| z items Hz Hrest IH]; intros y ky Hraise; cbn in Hraise.
  - discriminate.
  - destruct (distance_key_well_formed t z Hz) as [kz Ekz]. rewrite Ekz in Hraise.
    cbn in Hraise. destruct (kz <? ky); eauto.
Qed.

Lemma recommend_returns_unless_black_foundation skin lip scheme :
  well_formed_scheme scheme -> ~ some_category_empty scheme ->
  Forall (fun s => hex_to_rgb (hex s) <> Ok black) (foundation_colors scheme) ->
  exists res, recommend_complementary_colors 37 skin lip scheme = Ok res.
Proof.
  unfold well_formed_scheme, some_category_empty. intros Hwf Hne Hnb.
  apply Forall_app in Hwf as [Hf Hwf]. apply Forall_app in Hwf as [He Hl].
  destruct (py_min_well_formed skin _ Hf ltac:(tauto)) as (f & Ef & Inf).
  destruct (py_min_well_formed skin _ He ltac:(tauto)) as (e & Ee & Ine).
  destruct (py_min_well_formed lip _ Hl ltac:(tauto)) as (l & El & Inl).
  rewrite List.Forall_forall in Hf, He, Hl, Hnb.
  destruct (hex_to_rgb_well_formed _ (Hf f Inf)) as (frgb & Ef' & Rf & _).
  destruct (hex_to_rgb_well_formed _ (He e Ine)) as (ergb & Ee' & _).
  destruct (hex_to_rgb_well_formed _ (Hl l Inl)) as (lrgb & El' & Rl & _).
  assert (Hpos : 0 < calculate_brightness frgb).
  { apply calculate_brightness_pos; [exact Rf |]. intros ->. by apply (Hnb f Inf). }
  destruct (darken_until_stops 37 _ lrgb Hpos (darken_iter_37 lrgb Rl)) as [l' El''].
  unfold recommend_complementary_colors.
  rewrite Ef, Ee. cbn [mbind result_bind]. rewrite Ef'. cbn [mbind result_bind].
  rewrite El. cbn [mbind result_bind]. rewrite El'. cbn [mbind result_bind].
  rewrite El''. cbn [mbind result_bind]. rewrite Ee'. eexists. reflexivity.
Qed.

Lemma darken_until_in_range fuel fb lc lb l :
  in_range lc -> darken_until fuel fb lc lb = Ok l -> in_range l.
Proof.
  revert lc lb. induction fuel as [| fuel IH]; intros lc lb Hlc; cbn;
    destruct (Binary64.geb lb fb); intros H; try discriminate H.
  - by injection H as <-.
  - eapply IH; [| exact H]. by apply darken_color_in_range.
  - by injection H as <-.
Qed.

(** In exact arithmetic the returned lipstick is never brighter than the
    returned foundation. *)
Lemma recommended_lipstick_not_brighter fuel skin lip scheme foundation eyeshadow lipstick :
  well_formed_scheme scheme ->
  recommend_complementary_colors fuel skin lip scheme = Ok (foundation, eyeshadow, lipstick) ->
  brightness_milli lipstick <= brightness_milli foundation.
Proof.
  unfold well_formed_scheme. intros Hwf H.
  apply Forall_app in Hwf as [Hf Hwf]. apply Forall_app in Hwf as [_ Hl].
  rewrite List.Forall_forall in Hf, Hl.
  destruct (recommend_inv _ _ _ _ _ _ _ H)
    as (f & e & l & lrgb & Inf & Ef & _ & _ & Inl & El & Hd).
  destruct (hex_to_rgb_well_formed _ (Hf f Inf)) as (frgb & Ef' & Rf & _).
  destruct (hex_to_rgb_well_formed _ (Hl l Inl)) as (lrgb' & El' & Rl & _).
  rewrite Ef in Ef'. injection Ef' as <-. rewrite El in El'. injection El' as <-.
  pose proof (darken_until_in_range _ _ _ _ _ Rl Hd) as Rl'.
  pose proof (darken_until_exit _ _ _ _ _ eq_refl Hd) as Hlt.
  destruct (Z.le_gt_cases (brightness_milli lipstick) (brightness_milli foundation))
    as [Hle | Hgt]; [exact Hle |].
  pose proof (calculate_brightness_order foundation lipstick Rf Rl' Hgt). lia.
Qed.

(** It can be exactly as bright: the floats of two colours of one exact
    brightness may differ in the last place, and then the loop does not run. *)
Example exact_brightness_can_tie :
  recommend_complementary_colors 0 (200, 180, 160) (150, 50, 70) tie_scheme
    = Ok ((1, 0, 160), (17, 34, 51), (0, 31, 3))
  /\ calculate_brightness (0, 31, 3) < calculate_brightness (1, 0, 160)
  /\ brightness_milli (0, 31, 3) = brightness_milli (1, 0, 160).
Proof. repeat split; vm_compute; reflexivity. Qed.

(** C3: the loop has no cap.  When the matched foundation is black, so that
    its brightness is 0, and the lipstick has no negative channel, the
    condition [lipstick_brightness >= foundation_brightness] holds at every
    iteration and the loop exits for no amount of fuel. *)
Theorem darken_until_black_foundation_diverges (lipstick_color : color) :
  nonneg_color lipstick_color ->
  never_returns (fun fuel =>
    darken_until fuel (calculate_brightness black) lipstick_color
      (calculate_brightness lipstick_color)).
Proof.
  intros Hc fuel. apply darken_until_stuck.
  - vm_compute. discriminate.
  - by apply calculate_brightness_nonneg.
Qed.

Lemma darken_until_black_foundation_diverges_witness :
  nonneg_color (194, 30, 86)
  /\ darken_until 1000 (calculate_brightness black) (194, 30, 86)
       (calculate_brightness (194, 30, 86)) = Diverge.
Proof.
  assert (H : nonneg_color (194, 30, 86)) by (cbn; lia).
  split; [exact H |].
  exact (darken_until_black_foundation_diverges (194, 30, 86) H 1000%nat).
Defined.

(** C7: a scheme with three non-empty categories of well-formed swatches
    whose only foundation is "#000000": for every skin and lip colour
    [recommend_complementary_colors] neither returns nor raises. *)
Theorem recommend_black_foundation_never_returns (skin lip : color) :
  ~ some_category_empty black_foundation_scheme
  /\ well_formed_scheme black_foundation_scheme
  /\ never_returns (fun fuel =>
       recommend_complementary_colors fuel skin lip black_foundation_scheme).
Proof.
  split; [| split].
  - unfold some_category_empty. cbn. intuition discriminate.
  - unfold well_formed_scheme. cbn. repeat constructor.
  - intros fuel. unfold recommend_complementary_colors, black_foundation_scheme.
    cbn [foundation_colors eyeshadow_colors lipstick_colors py_min min_scan].
    unfold distance_key. cbn [hex].
    change (hex_to_rgb "#000000") with (Ok (0, 0, 0) : result color).
    change (hex_to_rgb "#8b5a2b") with (Ok (139, 90, 43) : result color).
    change (hex_to_rgb "#c21e56") with (Ok (194, 30, 86) : result color).
    cbn [mbind result_bind hex].
    change (hex_to_rgb "#000000") with (Ok (0, 0, 0) : result color).
    change (hex_to_rgb "#c21e56") with (Ok (194, 30, 86) : result color).
    cbn [mbind result_bind].
    rewrite darken_until_stuck; [reflexivity | vm_compute; discriminate |].
    apply calculate_brightness_nonneg. cbn. lia.
Qed.


(** ** Colour extractor *)

Lemma bitwise_and_masked_cases p mv :
  bitwise_and_masked p mv = (0, 0, 0) \/ bitwise_and_masked p mv = p.
Proof.
  destruct p as [[b g] r]. unfold bitwise_and_masked.
  destruct (mv =? 0); [by left | right]. by rewrite !Z.land_diag.
Qed.

Lemma zip_rows_masked_no_positive row mrow masked :
  Forall (fun p => all_channels_positive p = false) row ->
  zip_rows CvError bitwise_and_masked row mrow = Ok masked ->
  Forall (fun p => all_channels_positive p = false) masked.
Proof.
  intros Hrow. revert mrow masked.
  induction Hrow as [| p row Hp Hrow IH]; intros [| mv mrow] masked H; cbn in H;
    try discriminate H.
  - injection H as <-. constructor.
  - destruct (zip_rows _ _ row mrow) as [rest | |] eqn:E; try discriminate H.
    cbn in H. injection H as <-. constructor; [| by eapply IH].
    destruct (bitwise_and_masked_cases p mv) as [-> | ->]; [reflexivity | exact Hp].
Qed.

Lemma zip_grid_masked_no_positive frame m masked :
  Forall (Forall (fun p => all_channels_positive p = false)) frame ->
  zip_grid CvError bitwise_and_masked frame m = Ok masked ->
  Forall (Forall (fun p => all_channels_positive p = false)) masked.
Proof.
  intros Hframe. revert m masked.
  induction Hframe as [| row frame Hrow Hframe IH]; intros [| mrow m] masked H; cbn in H;
    try discriminate H.
  - injection H as <-. constructor.
  - destruct (zip_rows _ _ row mrow) as [r | |] eqn:Er; try discriminate H.
    cbn in H. destruct (zip_grid _ _ frame m) as [rest | |] eqn:Eg; try discriminate H.
    cbn in H. injection H as <-.
    constructor; [by eapply zip_rows_masked_no_positive | by eapply IH].
Qed.

Lemma filter_none_positive (rows : list (list pixel)) :
  Forall (Forall (fun p => all_channels_positive p = false)) rows ->
  List.filter all_channels_positive (concat rows) = [].
Proof.
  induction 1 as [| row rows Hrow _ IH]; [reflexivity |].
  cbn. rewrite List.filter_app, IH, app_nil_r.
  induction Hrow as [| p row Hp _ IHrow]; [reflexivity |]. cbn. by rewrite Hp.
Qed.

(** What the extractor really excludes: a frame in which every pixel has
    some channel equal to zero yields the fallback, whatever the mask. *)
Lemma compute_mean_color_fallback fallback frame m c :
  Forall (Forall (fun p => all_channels_positive p = false)) frame ->
  compute_mean_color fallback frame m = Ok c -> c = fallback.
Proof.
  intros Hframe. unfold compute_mean_color.
  destruct (grid_max _) as [top | |]; try discriminate. cbn [mbind result_bind].
  destruct (zip_grid _ _ frame _) as [masked | |] eqn:E; try discriminate.
  cbn [mbind result_bind].
  rewrite (filter_none_positive masked (zip_grid_masked_no_positive _ _ _ Hframe E)).
  by intros [= <-].
Qed.

(** C2: the extractor drops every masked pixel that has some channel equal
    to zero, not only the black ones.  A frame of one pure red pixel (BGR
    (0, 0, 255), not black) under a full mask yields the fallback constant
    from both extractors. *)
Theorem mean_color_drops_pure_red_pixel :
  non_black (0, 0, 255) = true
  /\ compute_mean_skin_color [[(0, 0, 255)]] [[255]] = Ok skin_fallback
  /\ compute_mean_lip_color [[(0, 0, 255)]] [[255]] = Ok lip_fallback.
Proof. repeat split; vm_compute; reflexivity. Qed.

(** Where every channel is positive the mean is taken channel by channel and
    returned as RGB. *)
Example mean_skin_color_two_pixels :
  compute_mean_skin_color [[(1, 2, 255); (3, 4, 5)]] [[255; 1]] = Ok (130, 3, 2).
Proof. vm_compute. reflexivity. Qed.

(** ** Compositor *)

Lemma cvRound_inject x z : (x == inject_Z z)%Q -> cvRound x = z.
Proof.
  intros H. unfold cvRound.
  assert (Hf : Qfloor x = z) by (rewrite H; apply Qfloor_Z).
  rewrite Hf.
  assert (Hc : (x - inject_Z z ?= 1 # 2)%Q = Lt).
  { rewrite H. unfold Qcompare. cbn. apply Z.compare_lt_iff. lia. }
  by rewrite Hc.
Qed.

Lemma saturate_u8_id v : 0 <= v <= 255 -> saturate_u8 v = v.
Proof. unfold saturate_u8. lia. Qed.

(** Weight 1 on the image and 0 on the overlay returns the image byte. *)
Lemma add_weighted_opacity_0 a b : 0 <= a <= 255 -> add_weighted a (1 - 0)%Q b 0%Q = a.
Proof.
  intros Ha. unfold add_weighted. rewrite (cvRound_inject _ a); [by apply saturate_u8_id |].
  unfold Qeq. cbn. lia.
Qed.

(** Weight 0 on the image and 1 on the overlay returns the overlay byte. *)
Lemma add_weighted_opacity_1 a b : 0 <= b <= 255 -> add_weighted a (1 - 1)%Q b 1%Q = b.
Proof.
  intros Hb. unfold add_weighted. rewrite (cvRound_inject _ b); [by apply saturate_u8_id |].
  unfold Qeq. cbn. lia.
Qed.

Lemma u8_range x : 0 <= u8 x <= 255.
Proof. unfold u8. pose proof (Z.mod_pos_bound x 256). lia. Qed.

Lemma zip_rows_composite makeup_color opacity row mrow :
  (let '(c0, c1, c2) := makeup_color in
   makeup_layer ←
     zip_rows IndexError
       (fun (_ : pixel) mv =>
          if mv =? 0 then (0, 0, 0, 0)
          else (u8 c0, u8 c1, u8 c2, u8 (Qtrunc (opacity * 255)%Q))) row mrow;
   image_bgra ←
     zip_rows CvError (add_weighted_pixel (1 - opacity)%Q opacity)
       (map bgr2bgra row) makeup_layer;
   Ok (map bgra2bgr image_bgra))
  = zip_rows IndexError (composite_pixel makeup_color opacity) row mrow.
Proof.
  destruct makeup_color as [[c0 c1] c2]. revert mrow.
  induction row as [| [[b g] r] row IH]; intros [| mv mrow]; try reflexivity.
  cbn [zip_rows map]. rewrite <- IH.
  destruct (zip_rows IndexError _ row mrow) as [layer | e |];
    cbn [mbind result_bind zip_rows]; try reflexivity.
  destruct (zip_rows CvError (add_weighted_pixel (1 - opacity) opacity)
              (map bgr2bgra row) layer) as [bl | e |];
    cbn [mbind result_bind map]; try reflexivity.
  unfold composite_pixel. destruct (mv =? 0); reflexivity.
Qed.

(** Once the overlay row is built, the weighted sum of the two rows cannot
    fail: they have the same length. *)
Lemma zip_rows_layer_ok {A B C D E : Type} e e' (f : A -> B -> C) (g : D -> C -> E)
    (h : A -> D) row mrow lrow :
  zip_rows e f row mrow = Ok lrow ->
  exists brow, zip_rows e' g (map h row) lrow = Ok brow.
Proof.
  revert mrow lrow. induction row as [| a row IH]; intros [| b mrow] lrow H; cbn in H;
    try discriminate H.
  - injection H as <-. by eexists.
  - destruct (zip_rows e f row mrow) as [rest | |] eqn:Er; try discriminate H.
    cbn in H. injection H as <-. destruct (IH mrow rest Er) as [brow Eb].
    cbn. rewrite Eb. by eexists.
Qed.

(** The compositor is a cell-by-cell map of [composite_pixel]; it raises only
    when image and mask differ in size. *)
Lemma apply_makeup_directly_pointwise img m makeup_color opacity :
  apply_makeup_directly img m makeup_color opacity
  = zip_grid IndexError (composite_pixel makeup_color opacity) img m.
Proof.
  unfold apply_makeup_directly. destruct makeup_color as [[c0 c1] c2]. revert m.
  induction img as [| row img IH]; intros [| mrow m]; try reflexivity.
  cbn [zip_grid map]. rewrite <- IH.
  rewrite <- (zip_rows_composite (c0, c1, c2) opacity row mrow).
  destruct (zip_rows IndexError _ row mrow) as [lrow | e |] eqn:El;
    cbn [mbind result_bind zip_grid]; try reflexivity.
  destruct (zip_rows_layer_ok IndexError CvError _
              (add_weighted_pixel (1 - opacity) opacity) bgr2bgra _ _ _ El) as [brow Eb].
  rewrite Eb. cbn [mbind result_bind].
  destruct (zip_grid IndexError _ img m) as [layer | e |];
    cbn [mbind result_bind zip_grid]; try reflexivity.
  rewrite Eb. cbn [mbind result_bind].
  destruct (zip_grid CvError (add_weighted_pixel (1 - opacity) opacity)
              (map (map bgr2bgra) img) layer) as [bl | e |];
    cbn [mbind result_bind map]; reflexivity.
Qed.

Lemma zip_rows_lookup {A B C : Type} e (f : A -> B -> C) l k r (x : nat) a b :
  zip_rows e f l k = Ok r -> l !! x = Some a -> k !! x = Some b ->
  r !! x = Some (f a b).
Proof.
  revert k r x. induction l as [| a' l IH]; intros [| b' k] r x H Ha Hb; cbn in H;
    try discriminate H; try discriminate Ha.
  destruct (zip_rows e f l k) as [rest | |] eqn:Er; try discriminate H.
  cbn in H. injection H as <-. destruct x as [| x]; cbn in *.
  - by injection Ha as ->; injection Hb as ->.
  - by eapply IH.
Qed.

Lemma zip_grid_lookup {A B C : Type} e (f : A -> B -> C) g h r (y x : nat) a b :
  zip_grid e f g h = Ok r -> cell_at g y x = Some a -> cell_at h y x = Some b ->
  cell_at r y x = Some (f a b).
Proof.
  unfold cell_at. revert h r y.
  induction g as [| row g IH]; intros [| mrow h] r y H Ha Hb; cbn in H;
    try discriminate H; try discriminate Ha.
  destruct (zip_rows e f row mrow) as [r0 | |] eqn:Er; try discriminate H.
  cbn in H. destruct (zip_grid e f g h) as [rest | |] eqn:Eg; try discriminate H.
  cbn in H. injection H as <-. destruct y as [| y]; cbn in *.
  - by eapply zip_rows_lookup.
  - by eapply IH.
Qed.

(** Every output pixel is [composite_pixel] of the input pixel and the mask
    value at the same place. *)
Lemma apply_makeup_directly_at img m makeup_color opacity out (y x : nat) p mv :
  apply_makeup_directly img m makeup_color opacity = Ok out ->
  cell_at img y x = Some p -> cell_at m y x = Some mv ->
  cell_at out y x = Some (composite_pixel makeup_color opacity p mv).
Proof.
  rewrite apply_makeup_directly_pointwise. apply zip_grid_lookup.
Qed.


(** With opacity 0 every pixel of a [uint8] image is kept. *)
Lemma composite_pixel_opacity_0 makeup_color p mv :
  u8_pixel p -> composite_pixel makeup_color 0%Q p mv = p.
Proof.
  destruct p as [[b g] r], makeup_color as [[c0 c1] c2]. intros (Hb & Hg & Hr).
  unfold composite_pixel. destruct (mv =? 0);
    by rewrite !add_weighted_opacity_0 by assumption.
Qed.

(** With opacity 1 a masked pixel receives the colour tuple as it is given,
    first component into the first (blue) channel. *)
Lemma composite_pixel_opacity_1_masked c0 c1 c2 p mv :
  mv <> 0 -> composite_pixel (c0, c1, c2) 1%Q p mv = (u8 c0, u8 c1, u8 c2).
Proof.
  destruct p as [[b g] r]. intros Hmv. unfold composite_pixel.
  destruct (Z.eqb_spec mv 0); [done |].
  by rewrite !add_weighted_opacity_1 by apply u8_range.
Qed.

(** With opacity 1 an unmasked pixel becomes black. *)
Lemma composite_pixel_opacity_1_unmasked makeup_color p :
  composite_pixel makeup_color 1%Q p 0 = (0, 0, 0).
Proof.
  destruct p as [[b g] r], makeup_color as [[c0 c1] c2]. unfold composite_pixel.
  cbn [Z.eqb]. by rewrite !add_weighted_opacity_1 by lia.
Qed.

Lemma zip_rows_keep {A B : Type} e (f : A -> B -> A) (P : A -> Prop) l k r :
  (forall a b, P a -> f a b = a) -> Forall P l ->
  zip_rows e f l k = Ok r -> r = l.
Proof.
  intros Hf Hl. revert k r. induction Hl as [| a l Ha Hl IH]; intros [| b k] r H;
    cbn in H; try discriminate H.
  - by injection H as <-.
  - destruct (zip_rows e f l k) as [rest | |] eqn:Er; try discriminate H.
    cbn in H. injection H as <-. by rewrite (Hf a b Ha), (IH k rest Er).
Qed.

Lemma zip_grid_keep {A B : Type} e (f : A -> B -> A) (P : A -> Prop) g h r :
  (forall a b, P a -> f a b = a) -> Forall (Forall P) g ->
  zip_grid e f g h = Ok r -> r = g.
Proof.
  intros Hf Hg. revert h r. induction Hg as [| row g Hrow Hg IH]; intros [| mrow h] r H;
    cbn in H; try discriminate H.
  - by injection H as <-.
  - destruct (zip_rows e f row mrow) as [r0 | |] eqn:Er; try discriminate H.
    cbn in H. destruct (zip_grid e f g h) as [rest | |] eqn:Eg; try discriminate H.
    cbn in H. injection H as <-.
    by rewrite (zip_rows_keep e f P row mrow r0 Hf Hrow Er), (IH h rest Eg).
Qed.

(** Compositing with opacity 0 returns the image pixel for pixel. *)
Lemma apply_makeup_directly_opacity_0 img m makeup_color out :
  u8_image img -> apply_makeup_directly img m makeup_color 0%Q = Ok out -> out = img.
Proof.
  intros Himg. rewrite apply_makeup_directly_pointwise.
  apply (zip_grid_keep _ _ u8_pixel); [| exact Himg].
  intros p mv Hp. by apply composite_pixel_opacity_0.
Qed.

(** C1: the weighted sum is applied to the whole image, so a pixel outside
    the mask is scaled by [1 - opacity]: with opacity 1/2 the unmasked pixel
    (100, 100, 100) comes out as (50, 50, 50). *)
Theorem apply_makeup_darkens_unmasked_pixel :
  cell_at [[0]] 0 0 = Some 0
  /\ apply_makeup_directly [[(100, 100, 100)]] [[0]] (10, 20, 30) (1 # 2)
     = Ok [[(50, 50, 50)]].
Proof. split; vm_compute; reflexivity. Qed.

(** C4: with opacity 0 the image is returned unchanged and with opacity 1 the
    masked pixel receives the colour, but the unmasked pixel (100, 100, 100)
    becomes (0, 0, 0) instead of staying as it was. *)
Theorem apply_makeup_opacity_1_blackens_unmasked_pixel :
  apply_makeup_directly [[(100, 100, 100); (10, 20, 30)]] [[0; 255]] (1, 2, 3) 0%Q
    = Ok [[(100, 100, 100); (10, 20, 30)]]
  /\ apply_makeup_directly [[(100, 100, 100); (10, 20, 30)]] [[0; 255]] (1, 2, 3) 1%Q
     = Ok [[(0, 0, 0); (1, 2, 3)]].
Proof. split; vm_compute; reflexivity. Qed.

(** ** Mask builder *)

Lemma resolve_empty feature_points : resolve ∅ feature_points = [].
Proof.
  unfold resolve. induction feature_points as [| idx l IH]; [reflexivity |].
  cbn. by rewrite lookup_empty.
Qed.

Lemma zeros_all_zero h w : all_zero (zeros h w).
Proof.
  unfold all_zero, zeros. apply Forall_replicate, Forall_replicate. reflexivity.
Qed.

Lemma zeros_has_shape h w : has_shape h w (zeros h w).
Proof.
  unfold has_shape, zeros. split; [apply length_replicate |].
  apply Forall_replicate, length_replicate.
Qed.

Lemma all_zero_binary m : all_zero m -> binary_mask m.
Proof.
  unfold all_zero, binary_mask. intros H.
  eapply Forall_impl; [exact H |]. intros row Hrow.
  eapply Forall_impl; [exact Hrow |]. intros v ->. by left.
Qed.

(** Without landmarks no region resolves, and the face mask stays as
    initialised. *)
Lemma face_loop_empty (fillPoly : polygon_filler) removed regions (m0 : mask) :
  fold_left (fun face_mask '(feature, feature_points) =>
      if existsb (String.eqb feature) removed then face_mask
      else
        match resolve ∅ feature_points with
        | [] => face_mask
        | points => fillPoly face_mask points 255
        end)
    regions m0 = m0.
Proof.
  revert m0. induction regions as [| [feature pts] regions IH]; intros m0; [reflexivity |].
  cbn [fold_left]. rewrite resolve_empty. rewrite IH. by destruct (existsb _ removed).
Qed.

(** C8: for every template shape, every table of regions and removal list
    (the module's own among them), every lip index list and whatever the
    polygon filler does, an empty landmark map gives a face mask and a lips
    mask that are entirely zero. *)
Theorem empty_landmarks_give_zero_masks (fillPoly : polygon_filler)
    (regions : list (string * list Z)) (removed : list string) (h w : nat)
    (face_connections lip_connections : list Z) :
  add_reverse_mask_and_lips_on fillPoly regions removed (h, w) ∅
    face_connections lip_connections = (zeros h w, zeros h w)
  /\ add_reverse_mask_and_lips fillPoly (h, w) ∅ face_connections lip_connections
     = (zeros h w, zeros h w)
  /\ all_zero (zeros h w).
Proof.
  assert (H : forall regions removed,
    add_reverse_mask_and_lips_on fillPoly regions removed (h, w) ∅
      face_connections lip_connections = (zeros h w, zeros h w)).
  { intros rs rm. unfold add_reverse_mask_and_lips_on.
    by rewrite face_loop_empty, resolve_empty. }
  split; [apply H |]. split; [apply H | apply zeros_all_zero].
Qed.

Lemma paints_has_shape v h w m m' : paints v m m' -> has_shape h w m -> has_shape h w m'.
Proof.
  unfold paints, has_shape. intros Hp [Hlen Hrows]. split.
  - by rewrite <- (Forall2_length _ _ _ Hp).
  - clear Hlen. induction Hp as [| row row' m m' Hrow Hp IH]; [constructor |].
    inversion Hrows as [| ? ? Hr Hrest]; subst. constructor; [| by apply IH].
    symmetry. apply (Forall2_length _ _ _ Hrow).
Qed.

Lemma paints_binary_row row row' :
  Forall2 (fun old new => new = old \/ new = 255) row row' ->
  Forall (fun v => v = 0 \/ v = 255) row -> Forall (fun v => v = 0 \/ v = 255) row'.
Proof.
  induction 1 as [| old new row row' Hcell Hrow IH]; intros Hr; [constructor |].
  inversion Hr as [| ? ? Hold Hrest]; subst. constructor; [| by apply IH].
  destruct Hcell as [-> | ->]; [exact Hold | by right].
Qed.

Lemma paints_binary m m' : paints 255 m m' -> binary_mask m -> binary_mask m'.
Proof.
  unfold paints, binary_mask.
  induction 1 as [| row row' m m' Hrow Hp IH]; intros Hm; [constructor |].
  inversion Hm as [| ? ? Hr Hrest]; subst.
  constructor; [by eapply paints_binary_row | by apply IH].
Qed.

Section MaskInvariant.

Variable fillPoly : polygon_filler.
Hypothesis fillPoly_paints : filler_paints fillPoly.

Lemma zeros_well_built h w : well_built h w (zeros h w).
Proof. split; [apply zeros_has_shape | apply all_zero_binary, zeros_all_zero]. Qed.

Lemma fillPoly_well_built h w m points :
  well_built h w m -> well_built h w (fillPoly m points 255).
Proof.
  intros [Hs Hb]. pose proof (fillPoly_paints m points 255) as Hp.
  split; [by eapply paints_has_shape | by eapply paints_binary].
Qed.

Lemma face_loop_well_built h w idx_to_coordinates removed regions m0 :
  well_built h w m0 ->
  well_built h w
    (fold_left (fun face_mask '(feature, feature_points) =>
        if existsb (String.eqb feature) removed then face_mask
        else
          match resolve idx_to_coordinates feature_points with
          | [] => face_mask
          | points => fillPoly face_mask points 255
          end)
      regions m0).
Proof.
  revert m0. induction regions as [| [feature pts] regions IH]; intros m0 H0; [exact H0 |].
  cbn [fold_left]. apply IH.
  destruct (existsb _ removed); [exact H0 |].
  destruct (resolve idx_to_coordinates pts); [exact H0 | by apply fillPoly_well_built].
Qed.

Lemma masks_well_built regions removed h w idx_to_coordinates fc lc :
  well_built h w
    (add_reverse_mask_and_lips_on fillPoly regions removed (h, w) idx_to_coordinates fc lc).1
  /\ well_built h w
    (add_reverse_mask_and_lips_on fillPoly regions removed (h, w) idx_to_coordinates fc lc).2.
Proof.
  unfold add_reverse_mask_and_lips_on. cbn [fst snd]. split.
  - apply face_loop_well_built, zeros_well_built.
  - destruct (resolve idx_to_coordinates lc);
      [apply zeros_well_built | apply fillPoly_well_built, zeros_well_built].
Qed.

End MaskInvariant.

(** C10: provided cv2.fillPoly keeps the size of the array and writes nothing
    but the colour it is given, both masks of [add_reverse_mask_and_lips]
    have the height and width of the template and every element of either is
    0 or 255. *)
Theorem masks_have_template_shape_and_are_binary (fillPoly : polygon_filler)
    (h w : nat) (idx_to_coordinates : gmap Z (Z * Z))
    (face_connections lip_connections : list Z) :
  filler_paints fillPoly ->
  let masks :=
    add_reverse_mask_and_lips fillPoly (h, w) idx_to_coordinates
      face_connections lip_connections in
  has_shape h w masks.1 /\ binary_mask masks.1
  /\ has_shape h w masks.2 /\ binary_mask masks.2.
Proof.
  intros Hp masks.
  destruct (masks_well_built fillPoly Hp face_points features_to_remove h w
              idx_to_coordinates face_connections lip_connections) as [[? ?] [? ?]].
  subst masks. unfold add_reverse_mask_and_lips. tauto.
Qed.

Lemma paint_row_paints inside v x row :
  Forall2 (fun old new => new = old \/ new = v) row (paint_row inside v x row).
Proof.
  revert x. induction row as [| old row IH]; intros x; cbn; constructor; [| apply IH].
  destruct (inside x); [by right | by left].
Qed.

Lemma paint_rows_paints inside v y m : paints v m (paint_rows inside v y m).
Proof.
  unfold paints. revert y. induction m as [| row m IH]; intros y; cbn; constructor;
    [apply paint_row_paints | apply IH].
Qed.

Lemma paints_refl v m : paints v m m.
Proof.
  unfold paints. induction m as [| row m IH]; constructor; [| exact IH].
  induction row as [| old row IHrow]; constructor; [by left | exact IHrow].
Qed.

(** The bounding-box filler meets what the builder relies on. *)
Lemma fill_bounding_box_paints : filler_paints fill_bounding_box.
Proof.
  intros m points v. unfold fill_bounding_box.
  destruct points as [| [x0 y0] rest]; [apply paints_refl | apply paint_rows_paints].
Qed.

(** A 4 x 5 template with four landmarks: the lip points 61 and 17 span a
    box in both masks, 50 and 33 mark single cells of the face mask. *)
Example sample_masks :
  add_reverse_mask_and_lips fill_bounding_box (4, 5)%nat sample_landmarks [] [61; 17; 999]
  = ([[0; 0; 0; 0; 255]; [0; 255; 255; 255; 0]; [0; 255; 255; 255; 0]; [255; 0; 0; 0; 0]],
     [[0; 0; 0; 0; 0]; [0; 255; 255; 255; 0]; [0; 255; 255; 255; 0]; [0; 0; 0; 0; 0]]).
Proof. vm_compute. reflexivity. Qed.

Lemma masks_have_template_shape_and_are_binary_witness :
  filler_paints fill_bounding_box
  /\ (let masks :=
        add_reverse_mask_and_lips fill_bounding_box (4, 5)%nat sample_landmarks
          [] [61; 17; 999] in
      has_shape 4 5 masks.1 /\ binary_mask masks.1
      /\ has_shape 4 5 masks.2 /\ binary_mask masks.2).
Proof.
  split; [exact fill_bounding_box_paints |].
  exact (masks_have_template_shape_and_are_binary fill_bounding_box 4 5 sample_landmarks
           [] [61; 17; 999] fill_bounding_box_paints).
Defined.

(* ===================================================================== *)
(** * Further properties                                                  *)
(* ===================================================================== *)

(** ** HEX <-> RGB, the other way round *)

Lemma byte_format_parse_spec c :
  0 <= c <= 255 ->
  exists a b,
    format_02x c = String a (String b EmptyString)
    /\ is_hex_digit a = true /\ is_hex_digit b = true
    /\ lower_ascii a = a /\ lower_ascii b = b
    /\ int_base16 (String a (String b EmptyString)) = Ok c.
Proof.
  intros Hc.
  pose proof (forallb_channel byte_format_parse ltac:(vm_compute; reflexivity) c Hc) as H.
  unfold byte_format_parse in H.
  destruct (format_02x c) as [| a [| b [| ? ?]]]; try discriminate H.
  exists a, b. split; [reflexivity |].
  repeat (apply andb_true_iff in H as [H ?]).
  destruct (int_base16 _) as [v | |]; try discriminate.
  repeat split; try assumption; try (by apply Ascii.eqb_eq).
  f_equal. lia.
Qed.

(** X1: for every colour with channels in 0..255, [rgb_to_hex] gives a
    well-formed string, '#' and six lower-case hexadecimal digits, and
    [hex_to_rgb] reads the colour back from it. *)
Theorem rgb_to_hex_then_hex_to_rgb (rgb : color) :
  in_range rgb ->
  well_formed_hex (rgb_to_hex rgb) = true
  /\ String.length (rgb_to_hex rgb) = 7%nat
  /\ lower (rgb_to_hex rgb) = rgb_to_hex rgb
  /\ hex_to_rgb (rgb_to_hex rgb) = Ok rgb.
Proof.
  destruct rgb as [[c0 c1] c2]. intros (H0 & H1 & H2).
  destruct (byte_format_parse_spec c0 H0) as (a0 & b0 & F0 & Ha0 & Hb0 & La0 & Lb0 & P0).
  destruct (byte_format_parse_spec c1 H1) as (a1 & b1 & F1 & Ha1 & Hb1 & La1 & Lb1 & P1).
  destruct (byte_format_parse_spec c2 H2) as (a2 & b2 & F2 & Ha2 & Hb2 & La2 & Lb2 & P2).
  unfold rgb_to_hex. rewrite F0, F1, F2. cbv [String.append].
  split; [| split; [reflexivity | split]].
  - unfold well_formed_hex. change (Ascii.eqb "#" "#") with true. cbn iota.
    unfold is_hex6. cbn [String.length Nat.eqb all_hex].
    by rewrite Ha0, Hb0, Ha1, Hb1, Ha2, Hb2.
  - cbn [lower]. by rewrite La0, Lb0, La1, Lb1, La2, Lb2.
  - unfold hex_to_rgb. cbn [lstrip_hash]. change (Ascii.eqb "#" "#") with true. cbn iota.
    rewrite (hex_digit_not_hash a0 Ha0). cbn [substring].
    rewrite P0, P1, P2. reflexivity.
Qed.

Lemma rgb_to_hex_then_hex_to_rgb_witness :
  in_range (200, 180, 160)
  /\ rgb_to_hex (200, 180, 160) = "#c8b4a0"%string
  /\ hex_to_rgb (rgb_to_hex (200, 180, 160)) = Ok (200, 180, 160).
Proof.
  assert (H : in_range (200, 180, 160)) by (cbn; lia).
  split; [exact H |]. split; [reflexivity |].
  exact (proj2 (proj2 (proj2 (rgb_to_hex_then_hex_to_rgb (200, 180, 160) H)))).
Defined.

Lemma int_base16_outcome s :
  (exists v, int_base16 s = Ok v) \/ int_base16 s = Raise ValueError.
Proof.
  unfold int_base16.
  destruct (match rstrip_space (lstrip_space s) with
            | String "+" r => (1, r) | String "-" r => (-1, r)
            | _ => (1, rstrip_space (lstrip_space s)) end) as [sign digits].
  destruct digits; [by right |]. destruct (hex_value 0 _); eauto.
Qed.

Lemma substring_beyond n m s : (String.length s <= n)%nat -> substring n m s = EmptyString.
Proof.
  revert s. induction n as [| n IH]; intros [| c s] H; cbn in *; try lia.
  - by destruct m.
  - reflexivity.
  - apply IH. lia.
Qed.

(** X2: a string that has fewer than five characters after its leading '#'s
    is rejected with ValueError: the slice [4:6] is empty and int('', 16)
    raises. *)
Theorem hex_to_rgb_too_short (s : string) :
  (String.length (lstrip_hash s) < 5)%nat -> hex_to_rgb s = Raise ValueError.
Proof.
  intros H. unfold hex_to_rgb.
  destruct (int_base16_outcome (substring 0 2 (lstrip_hash s))) as [[v0 ->] | ->]; [| done].
  destruct (int_base16_outcome (substring 2 2 (lstrip_hash s))) as [[v1 ->] | ->]; [| done].
  cbn [mbind result_bind]. rewrite substring_beyond by lia. reflexivity.
Qed.

Lemma hex_to_rgb_too_short_witness :
  (String.length (lstrip_hash "##abcd") < 5)%nat /\ hex_to_rgb "##abcd" = Raise ValueError.
Proof.
  assert (H : (String.length (lstrip_hash "##abcd") < 5)%nat) by (cbn; lia).
  split; [exact H | exact (hex_to_rgb_too_short "##abcd" H)].
Defined.

(** Five characters are enough: the last channel is then read from one digit. *)
Example hex_to_rgb_five_digits : hex_to_rgb "#12345" = Ok (18, 52, 5).
Proof. vm_compute. reflexivity. Qed.

Lemma lstrip_hash_idem s : lstrip_hash (lstrip_hash s) = lstrip_hash s.
Proof.
  induction s as [| c s IH]; [reflexivity |]. cbn.
  destruct (Ascii.eqb c "#") eqn:E; [exact IH |]. cbn. by rewrite E.
Qed.

Lemma lstrip_hash_head s :
  match lstrip_hash s with
  | String c _ => Ascii.eqb c "#" = false
  | EmptyString => True
  end.
Proof.
  induction s as [| c s IH]; [exact I |]. cbn.
  destruct (Ascii.eqb c "#") eqn:E; [exact IH | exact E].
Qed.

(** X3: [hex_to_rgb] reads nothing but the first six characters that follow
    the leading '#'s; whatever comes after them is ignored, not rejected. *)
Theorem hex_to_rgb_reads_six (s : string) :
  hex_to_rgb s = hex_to_rgb (substring 0 6 (lstrip_hash s)).
Proof.
  unfold hex_to_rgb. pose proof (lstrip_hash_head s) as Hh.
  destruct (lstrip_hash s) as [| c1 h]; [reflexivity |].
  assert (E : lstrip_hash (substring 0 6 (String c1 h)) = substring 0 6 (String c1 h)).
  { cbn. by rewrite Hh. }
  rewrite E. clear E Hh.
  destruct h as [| c2 h]; [reflexivity |].
  destruct h as [| c3 h]; [reflexivity |].
  destruct h as [| c4 h]; [reflexivity |].
  destruct h as [| c5 h]; [reflexivity |].
  destruct h as [| c6 h]; [reflexivity |].
  cbn [substring]. by destruct h.
Qed.

Example hex_to_rgb_ignores_tail : hex_to_rgb "#ff8000 is orange" = Ok (255, 128, 0).
Proof. vm_compute. reflexivity. Qed.

(** ** Brightness, darkening and distance *)

(** X4: one application of [darken_color] to a colour with channels in
    0..255 other than black strictly lowers its brightness, as
    [calculate_brightness] computes it, hence changes the colour: black is
    the only fixed point. *)
Theorem darken_color_strictly_darker (c : color) :
  in_range c -> c <> black ->
  calculate_brightness (darken_color c) < calculate_brightness c
  /\ darken_color c <> c.
Proof.
  intros Hc Hne.
  assert (Hlt : calculate_brightness (darken_color c) < calculate_brightness c).
  { apply calculate_brightness_order; [by apply darken_color_in_range | exact Hc |].
    destruct c as [[c0 c1] c2]. destruct Hc as (H0 & H1 & H2). cbn.
    rewrite !darken_channel_floor by assumption.
    assert (1 <= c0 \/ 1 <= c1 \/ 1 <= c2).
    { destruct (Z.eq_dec c0 0) as [-> |]; [| lia].
      destruct (Z.eq_dec c1 0) as [-> |]; [| lia].
      destruct (Z.eq_dec c2 0) as [-> |]; [| lia]. by destruct Hne. }
    pose proof (Z.div_mod (c0 * 9) 10 ltac:(lia)).
    pose proof (Z.mod_pos_bound (c0 * 9) 10 ltac:(lia)).
    pose proof (Z.div_mod (c1 * 9) 10 ltac:(lia)).
    pose proof (Z.mod_pos_bound (c1 * 9) 10 ltac:(lia)).
    pose proof (Z.div_mod (c2 * 9) 10 ltac:(lia)).
    pose proof (Z.mod_pos_bound (c2 * 9) 10 ltac:(lia)).
    lia. }
  split; [exact Hlt |]. intros E. rewrite E in Hlt. lia.
Qed.

Lemma darken_color_strictly_darker_witness :
  in_range (1, 0, 0) /\ (1, 0, 0) <> black
  /\ calculate_brightness (darken_color (1, 0, 0)) < calculate_brightness (1, 0, 0).
Proof.
  assert (H : in_range (1, 0, 0)) by (cbn; lia).
  assert (N : (1, 0, 0) <> black) by discriminate.
  split; [exact H |]. split; [exact N |].
  exact (proj1 (darken_color_strictly_darker (1, 0, 0) H N)).
Defined.

(** X5: the brightness of a colour with channels in 0..255 lies between 0
    and that of white, which in binary64 is exactly 255.0; it is 0 for black
    only. *)
Theorem calculate_brightness_range (c : color) :
  in_range c ->
  0 <= calculate_brightness c <= calculate_brightness (255, 255, 255)
  /\ calculate_brightness (255, 255, 255) = 255 * Binary64.one
  /\ (calculate_brightness c = 0 <-> c = black).
Proof.
  intros Hc. split; [| split].
  - destruct c as [[c0 c1] c2]. destruct Hc as (H0 & H1 & H2). split.
    + apply calculate_brightness_ge_0; lia.
    + apply calculate_brightness_mono; lia.
  - vm_compute. reflexivity.
  - split.
    + intros E. destruct (decide (c = black)) as [-> | Hne]; [reflexivity |].
      pose proof (calculate_brightness_pos c Hc Hne). lia.
    + intros ->. reflexivity.
Qed.

Lemma calculate_brightness_range_witness :
  in_range (200, 180, 160)
  /\ 0 <= calculate_brightness (200, 180, 160) <= calculate_brightness (255, 255, 255).
Proof.
  assert (H : in_range (200, 180, 160)) by (cbn; lia).
  split; [exact H | exact (proj1 (calculate_brightness_range (200, 180, 160) H))].
Defined.



Lemma square_le a b : 0 <= a <= b -> a * a <= b * b.
Proof. intros. apply Z.mul_le_mono_nonneg; lia. Qed.

(** The pieces of [sqrt_int n] for 0 < n < 2^40: exponent, scale, integer
    root and rounded significand. *)
Lemma sqrt_int_parts n :
  0 < n < 2 ^ 40 ->
  exists e P f m,
    Binary64.sqrt_int n = m * 2 ^ (e + 4)
    /\ 0 <= e <= 19 /\ P = 2 ^ (52 - e) /\ 2 ^ 33 <= P
    /\ 2 ^ (2 * e) <= n < 2 ^ (2 * e + 2)
    /\ P * 2 ^ e = 2 ^ 52
    /\ f * f <= n * (P * P) < (f + 1) * (f + 1) /\ 0 <= f
    /\ f <= m <= f + 1.
Proof.
  intros [Hn Hlt]. unfold Binary64.sqrt_int.
  destruct (Z.leb_spec n 0) as [? | _]; [lia |]. cbv zeta.
  pose proof (Z.log2_spec n Hn) as [Hlo Hhi].
  assert (HL : 0 <= Z.log2 n < 40).
  { split; [apply Z.log2_nonneg | apply Z.log2_lt_pow2; lia]. }
  set (e := Z.log2 n / 2) in *.
  assert (He : 2 * e <= Z.log2 n <= 2 * e + 1).
  { unfold e. pose proof (Z.div_mod (Z.log2 n) 2 ltac:(lia)).
    pose proof (Z.mod_pos_bound (Z.log2 n) 2 ltac:(lia)). lia. }
  assert (He19 : 0 <= e <= 19) by lia.
  set (P := 2 ^ (52 - e)).
  assert (HP2 : 2 ^ (2 * (52 - e)) = P * P).
  { unfold P. rewrite <- Z.pow_add_r by lia. f_equal. lia. }
  rewrite HP2.
  set (f := Z.sqrt (n * (P * P))).
  assert (HP : 2 ^ 33 <= P) by (apply Z.pow_le_mono_r; lia).
  assert (Hf : f * f <= n * (P * P) < (f + 1) * (f + 1)).
  { pose proof (Z.sqrt_spec (n * (P * P)) ltac:(nia)) as Hs.
    fold f in Hs. unfold Z.succ in Hs. exact Hs. }
  exists e, P, f, (if f <? n * (P * P) - f * f then f + 1 else f).
  split; [reflexivity |]. split; [exact He19 |]. split; [reflexivity |].
  split; [exact HP |]. split.
  { split.
    - etransitivity; [| exact Hlo]. apply Z.pow_le_mono_r; lia.
    - eapply Z.lt_le_trans; [exact Hhi |]. apply Z.pow_le_mono_r; lia. }
  split.
  { unfold P. rewrite <- Z.pow_add_r by lia. f_equal. lia. }
  split; [exact Hf |]. split; [apply Z.sqrt_nonneg |].
  destruct (f <? n * (P * P) - f * f); lia.
Qed.

(** The binary64 square root is strictly increasing on integers below 2^40:
    neighbouring roots are far more than one unit in the last place apart. *)
Lemma sqrt_int_strictly_increasing n n' :
  0 <= n < n' -> n' < 2 ^ 40 -> Binary64.sqrt_int n < Binary64.sqrt_int n'.
Proof.
  intros [Hn Hlt] Hn'.
  destruct (sqrt_int_parts n' ltac:(lia))
    as (e' & P' & f' & m' & -> & He' & HP'def & HP' & Hbin' & HPQ' & Hf' & Hf0' & Hm').
  assert (Hpos' : 0 < 2 ^ (e' + 4)) by (apply Z.pow_pos_nonneg; lia).
  assert (Hf1' : 2 ^ 52 <= f').
  { assert (2 ^ 52 * 2 ^ 52 <= n' * (P' * P')).
    { assert (0 < 2 ^ e') by (apply Z.pow_pos_nonneg; lia).
      assert (2 ^ (2 * e') = 2 ^ e' * 2 ^ e').
      { rewrite <- Z.pow_add_r by lia. f_equal. lia. }
      nia. }
    nia. }
  destruct (Z.eq_dec n 0) as [-> | Hn0].
  { change (Binary64.sqrt_int 0) with 0. nia. }
  destruct (sqrt_int_parts n ltac:(lia))
    as (e & P & f & m & -> & He & HPdef & HP & Hbin & HPQ & Hf & Hf0 & Hm).
  assert (Hpos : 0 < 2 ^ (e + 4)) by (apply Z.pow_pos_nonneg; lia).
  assert (Hub : n * (P * P) < 2 ^ 53 * 2 ^ 53 - P * P + 1).
  { assert (0 < 2 ^ e) by (apply Z.pow_pos_nonneg; lia).
    assert (E1 : 2 ^ (2 * e + 2) = 4 * (2 ^ e * 2 ^ e)).
    { replace (2 * e + 2) with (2 + (e + e)) by lia.
      rewrite !Z.pow_add_r by lia. reflexivity. }
    assert (E2 : (P * 2 ^ e) * (P * 2 ^ e) = 2 ^ 52 * 2 ^ 52) by (rewrite HPQ; reflexivity).
    assert (n + 1 <= 4 * (2 ^ e * 2 ^ e)) by lia.
    assert ((n + 1) * (P * P) <= 4 * (2 ^ e * 2 ^ e) * (P * P)) by nia.
    replace (2 ^ 53 * 2 ^ 53) with (4 * (2 ^ 52 * 2 ^ 52)) by reflexivity.
    nia. }
  assert (Hfub : f + 2 <= 2 ^ 53).
  { destruct (Z.le_gt_cases (f + 2) (2 ^ 53)) as [? | Hgt]; [assumption | exfalso].
    assert (2 ^ 53 - 1 <= f) by lia.
    assert ((2 ^ 53 - 1) * (2 ^ 53 - 1) <= f * f) by nia.
    assert (2 ^ 33 * 2 ^ 33 <= P * P) by nia.
    lia. }
  destruct (Z.eq_dec e e') as [<- | Hee].
  - assert (P' = P) by congruence. subst P'.
    assert (f + 2 <= f').
    { destruct (Z.le_gt_cases (f + 2) f') as [? | Hgt]; [assumption | exfalso].
      pose proof (square_le (f' + 1) (f + 2) ltac:(lia)) as S1.
      assert (S2 : (n + 1) * (P * P) <= n' * (P * P))
        by (apply Z.mul_le_mono_nonneg_r; [apply Z.square_nonneg | lia]).
      pose proof (square_le (2 ^ 33) P ltac:(lia)) as S3.
      change (2 ^ 33 * 2 ^ 33) with (2 ^ 66) in S3. change (2 ^ 53) with 9007199254740992 in Hfub.
      change (2 ^ 66) with 73786976294838206464 in S3. lia. }
    assert (m + 1 <= m') by lia.
    assert ((m + 1) * 2 ^ (e + 4) <= m' * 2 ^ (e + 4)) by (apply Z.mul_le_mono_nonneg_r; lia).
    lia.
  - assert (Hlt_e : e < e').
    { destruct (Z.lt_trichotomy e e') as [? | [? | Hgt]]; [assumption | lia | exfalso].
      assert (2 ^ (2 * e' + 2) <= 2 ^ (2 * e)) by (apply Z.pow_le_mono_r; lia). lia. }
    assert (2 ^ (e + 5) <= 2 ^ (e' + 4)) by (apply Z.pow_le_mono_r; lia).
    assert (E5 : 2 ^ (e + 5) = 2 * 2 ^ (e + 4)).
    { replace (e + 5) with (1 + (e + 4)) by lia. rewrite Z.pow_add_r by lia. reflexivity. }
    set (A := 2 ^ (e + 4)) in *. set (B := 2 ^ (e' + 4)) in *.
    assert (S1 : m * A < 2 ^ 53 * A) by (apply Z.mul_lt_mono_pos_r; lia).
    assert (S2 : 2 ^ 52 * (2 * A) <= 2 ^ 52 * B) by (apply Z.mul_le_mono_nonneg_l; lia).
    assert (S3 : 2 ^ 52 * B <= m' * B) by (apply Z.mul_le_mono_nonneg_r; lia).
    replace (2 ^ 53 * A) with (2 ^ 52 * (2 * A)) in S1 by (change (2 ^ 53) with (2 ^ 52 * 2); ring).
    lia.
Qed.

Lemma squared_distance_bounds a b :
  in_range a -> in_range b -> 0 <= squared_distance a b < 2 ^ 40.
Proof.
  destruct a as [[a0 a1] a2], b as [[b0 b1] b2].
  intros (? & ? & ?) (? & ? & ?). unfold squared_distance.
  assert (Hsq : forall x, -255 <= x <= 255 -> 0 <= x ^ 2 <= 65025).
  { intros x Hx. rewrite Z.pow_2_r. nia. }
  pose proof (Hsq (a0 - b0) ltac:(lia)). pose proof (Hsq (a1 - b1) ltac:(lia)).
  pose proof (Hsq (a2 - b2) ltac:(lia)). change (2 ^ 40) with 1099511627776. lia.
Qed.

Lemma calculate_color_distance_sqrt a b :
  calculate_color_distance a b = Binary64.sqrt_int (squared_distance a b).
Proof. destruct a as [[a0 a1] a2], b as [[b0 b1] b2]. reflexivity. Qed.

(** X7: [calculate_color_distance] is symmetric; on colours with channels in
    0..255 it is never negative and is 0.0 exactly for equal colours. *)
Theorem calculate_color_distance_metric (a b : color) :
  in_range a -> in_range b ->
  calculate_color_distance a b = calculate_color_distance b a
  /\ 0 <= calculate_color_distance a b
  /\ (calculate_color_distance a b = 0 <-> a = b).
Proof.
  intros Ha Hb. pose proof (squared_distance_bounds a b Ha Hb) as Hd.
  rewrite !calculate_color_distance_sqrt.
  assert (Hsym : squared_distance a b = squared_distance b a).
  { destruct a as [[a0 a1] a2], b as [[b0 b1] b2]. unfold squared_distance. ring. }
  assert (Hz : squared_distance a b = 0 <-> a = b).
  { destruct a as [[a0 a1] a2], b as [[b0 b1] b2]. unfold squared_distance. split.
    - intros E. rewrite !Z.pow_2_r in E.
      pose proof (Z.square_nonneg (a0 - b0)). pose proof (Z.square_nonneg (a1 - b1)).
      pose proof (Z.square_nonneg (a2 - b2)).
      assert (E0 : (a0 - b0) * (a0 - b0) = 0) by lia.
      assert (E1 : (a1 - b1) * (a1 - b1) = 0) by lia.
      assert (E2 : (a2 - b2) * (a2 - b2) = 0) by lia.
      apply Z.mul_eq_0 in E0, E1, E2. repeat f_equal; lia.
    - intros [= -> -> ->]. rewrite !Z.sub_diag. reflexivity. }
  split; [by rewrite Hsym |].
  destruct (Z.eq_dec (squared_distance a b) 0) as [E | Hne].
  - rewrite E. change (Binary64.sqrt_int 0) with 0. split; [lia |]. by rewrite <- Hz.
  - pose proof (sqrt_int_strictly_increasing 0 (squared_distance a b) ltac:(lia) ltac:(lia))
      as Hpos.
    change (Binary64.sqrt_int 0) with 0 in Hpos. split; [lia |]. rewrite <- Hz. lia.
Qed.

Lemma calculate_color_distance_metric_witness :
  in_range (200, 180, 160) /\ in_range (150, 50, 70)
  /\ calculate_color_distance (200, 180, 160) (150, 50, 70)
     = calculate_color_distance (150, 50, 70) (200, 180, 160).
Proof.
  assert (Ha : in_range (200, 180, 160)) by (cbn; lia).
  assert (Hb : in_range (150, 50, 70)) by (cbn; lia).
  split; [exact Ha |]. split; [exact Hb |].
  exact (proj1 (calculate_color_distance_metric _ _ Ha Hb)).
Defined.

(** X8: on colours with channels in 0..255 the float distance compares two
    pairs of colours exactly as their squared distances do: taking the
    binary64 root neither merges nor swaps two different sums of squares. *)
Theorem calculate_color_distance_orders_like_squares (a b c d : color) :
  in_range a -> in_range b -> in_range c -> in_range d ->
  (calculate_color_distance a b < calculate_color_distance c d
   <-> squared_distance a b < squared_distance c d)
  /\ (calculate_color_distance a b = calculate_color_distance c d
      <-> squared_distance a b = squared_distance c d).
Proof.
  intros Ha Hb Hc Hd. rewrite !calculate_color_distance_sqrt.
  pose proof (squared_distance_bounds a b Ha Hb) as H1.
  pose proof (squared_distance_bounds c d Hc Hd) as H2.
  set (x := squared_distance a b) in *. set (y := squared_distance c d) in *.
  destruct (Z.lt_trichotomy x y) as [Hlt | [Heq | Hgt]].
  - pose proof (sqrt_int_strictly_increasing x y ltac:(lia) ltac:(lia)). lia.
  - rewrite Heq. lia.
  - pose proof (sqrt_int_strictly_increasing y x ltac:(lia) ltac:(lia)). lia.
Qed.

Lemma calculate_color_distance_orders_like_squares_witness :
  squared_distance (0, 0, 0) (3, 4, 0) < squared_distance (0, 0, 0) (1, 5, 0)
  /\ calculate_color_distance (0, 0, 0) (3, 4, 0) = 5 * Binary64.one
  /\ calculate_color_distance (0, 0, 0) (3, 4, 0) < calculate_color_distance (0, 0, 0) (1, 5, 0).
Proof.
  assert (H0 : in_range (0, 0, 0)) by (cbn; lia).
  assert (H1 : in_range (3, 4, 0)) by (cbn; lia).
  assert (H2 : in_range (1, 5, 0)) by (cbn; lia).
  assert (Hlt : squared_distance (0, 0, 0) (3, 4, 0) < squared_distance (0, 0, 0) (1, 5, 0))
    by (vm_compute; reflexivity).
  split; [exact Hlt |]. split; [vm_compute; reflexivity |].
  exact (proj2 (proj1 (calculate_color_distance_orders_like_squares _ _ _ _ H0 H1 H0 H2)) Hlt).
Defined.

(** ** Palette matcher: what is selected *)












(** ** Palette matcher: errors and termination *)

Lemma darken_until_not_raise fuel fb lc lb e : darken_until fuel fb lc lb <> Raise e.
Proof.
  revert lc lb. induction fuel as [| fuel IH]; intros lc lb; cbn;
    destruct (Binary64.geb lb fb); try discriminate. apply IH.
Qed.

(** X11: on a palette of well-formed swatches the matcher raises exactly when
    one of the three categories is empty, and what it raises is the
    ValueError of [min] on an empty sequence; the loop itself never raises. *)
Theorem recommend_raises_iff_empty_category fuel skin lip scheme :
  well_formed_scheme scheme ->
  ((exists e, recommend_complementary_colors fuel skin lip scheme = Raise e)
   <-> some_category_empty scheme)
  /\ (some_category_empty scheme ->
      recommend_complementary_colors fuel skin lip scheme = Raise ValueError).
Proof.
  intros Hwf. split; [| apply recommend_raises_on_empty_category]. split.
  - intros [e He].
    destruct (list_eq_nil_dec (foundation_colors scheme)) as [? | Nf]; [by left |].
    destruct (list_eq_nil_dec (eyeshadow_colors scheme)) as [? | Ne]; [right; by left |].
    destruct (list_eq_nil_dec (lipstick_colors scheme)) as [? | Nl]; [right; by right |].
    exfalso. unfold well_formed_scheme in Hwf.
    apply Forall_app in Hwf as [Hf Hwf]. apply Forall_app in Hwf as [Hes Hl].
    destruct (py_min_well_formed skin _ Hf Nf) as (f & Pf & Inf).
    destruct (py_min_well_formed skin _ Hes Ne) as (es & Pe & Ine).
    destruct (py_min_well_formed lip _ Hl Nl) as (l & Pl & Inl).
    rewrite List.Forall_forall in Hf, Hes, Hl.
    destruct (hex_to_rgb_well_formed _ (Hf f Inf)) as (frgb & Ef & _).
    destruct (hex_to_rgb_well_formed _ (Hes es Ine)) as (ergb & Ee & _).
    destruct (hex_to_rgb_well_formed _ (Hl l Inl)) as (lrgb & El & _).
    unfold recommend_complementary_colors in He.
    rewrite Pf, Pe in He. cbn [mbind result_bind] in He. rewrite Ef in He.
    cbn [mbind result_bind] in He. rewrite Pl in He. cbn [mbind result_bind] in He.
    rewrite El in He. cbn [mbind result_bind] in He.
    destruct (darken_until _ _ _ _) as [l' | e' |] eqn:Ed.
    + cbn [mbind result_bind] in He. rewrite Ee in He. discriminate He.
    + by apply darken_until_not_raise in Ed.
    + discriminate He.
  - intros Hempty. exists ValueError. by apply recommend_raises_on_empty_category.
Qed.

Lemma recommend_raises_iff_empty_category_witness :
  well_formed_scheme no_lipstick_scheme
  /\ some_category_empty no_lipstick_scheme
  /\ recommend_complementary_colors 50 (200, 180, 160) (150, 50, 70) no_lipstick_scheme
     = Raise ValueError.
Proof.
  assert (Hwf : well_formed_scheme no_lipstick_scheme)
    by (unfold well_formed_scheme; cbn; repeat constructor).
  assert (He : some_category_empty no_lipstick_scheme) by (right; right; reflexivity).
  split; [exact Hwf |]. split; [exact He |].
  exact (proj2 (recommend_raises_iff_empty_category 50 (200, 180, 160) (150, 50, 70)
                  no_lipstick_scheme Hwf) He).
Defined.






Lemma darken_until_more_fuel fuel extra fb lc lb l :
  darken_until fuel fb lc lb = Ok l -> darken_until (fuel + extra) fb lc lb = Ok l.
Proof.
  revert lc lb. induction fuel as [| fuel IH]; intros lc lb; cbn.
  - destruct extra; cbn; destruct (Binary64.geb lb fb); done.
  - destruct (Binary64.geb lb fb); [apply IH | done].
Qed.

(** X13: on a palette of well-formed swatches with no category empty and no
    black foundation the matcher returns, after at most 37 darkenings: the
    result with 37 units of fuel is the result with any larger amount. *)
Theorem recommend_returns_within_37 skin lip scheme :
  well_formed_scheme scheme -> ~ some_category_empty scheme ->
  Forall (fun s => hex_to_rgb (hex s) <> Ok black) (foundation_colors scheme) ->
  exists res, forall fuel, (37 <= fuel)%nat ->
    recommend_complementary_colors fuel skin lip scheme = Ok res.
Proof.
  unfold well_formed_scheme, some_category_empty. intros Hwf Hne Hnb.
  apply Forall_app in Hwf as [Hf Hwf]. apply Forall_app in Hwf as [He Hl].
  destruct (py_min_well_formed skin _ Hf ltac:(tauto)) as (f & Ef & Inf).
  destruct (py_min_well_formed skin _ He ltac:(tauto)) as (e & Ee & Ine).
  destruct (py_min_well_formed lip _ Hl ltac:(tauto)) as (l & El & Inl).
  rewrite List.Forall_forall in Hf, He, Hl, Hnb.
  destruct (hex_to_rgb_well_formed _ (Hf f Inf)) as (frgb & Ef' & Rf & _).
  destruct (hex_to_rgb_well_formed _ (He e Ine)) as (ergb & Ee' & _).
  destruct (hex_to_rgb_well_formed _ (Hl l Inl)) as (lrgb & El' & Rl & _).
  assert (Hpos : 0 < calculate_brightness frgb).
  { apply calculate_brightness_pos; [exact Rf |]. intros ->. by apply (Hnb f Inf). }
  destruct (darken_until_stops 37 _ lrgb Hpos (darken_iter_37 lrgb Rl)) as [l' El''].
  exists (frgb, ergb, l'). intros fuel Hfuel.
  replace fuel with (37 + (fuel - 37))%nat by lia.
  unfold recommend_complementary_colors.
  rewrite Ef, Ee. cbn [mbind result_bind]. rewrite Ef'. cbn [mbind result_bind].
  rewrite El. cbn [mbind result_bind]. rewrite El'. cbn [mbind result_bind].
  rewrite (darken_until_more_fuel 37 (fuel - 37) _ _ _ _ El'').
  cbn [mbind result_bind]. rewrite Ee'. reflexivity.
Qed.

Lemma recommend_returns_within_37_witness :
  exists res, forall fuel, (37 <= fuel)%nat ->
    recommend_complementary_colors fuel (200, 180, 160) (150, 50, 70) sample_scheme = Ok res.
Proof.
  apply (recommend_returns_within_37 (200, 180, 160) (150, 50, 70) sample_scheme).
  - unfold well_formed_scheme. cbn. repeat constructor.
  - unfold some_category_empty. cbn. intuition discriminate.
  - cbn. repeat constructor; vm_compute; discriminate.
Defined.

(** ** Colour extractor: edge cases and range *)

Lemma zip_rows_outcome {A B C : Type} e (f : A -> B -> C) l k :
  (exists r, zip_rows e f l k = Ok r /\ length l = length k /\ length r = length l)
  \/ (zip_rows e f l k = Raise e /\ length l <> length k).
Proof.
  revert k. induction l as [| a l IH]; intros [| b k]; cbn.
  - left. by eexists.
  - right. done.
  - right. done.
  - destruct (IH k) as [(r & -> & Hl & Hr) | [-> Hne]]; cbn.
    + left. eexists. split; [reflexivity |]. cbn. lia.
    + right. split; [reflexivity | lia].
Qed.

(** The cell-by-cell combination succeeds exactly on grids of one shape, and
    raises [e] otherwise. *)
Lemma zip_grid_outcome {A B C : Type} e (f : A -> B -> C) g h :
  (exists r, zip_grid e f g h = Ok r /\ same_shape g h /\ same_shape g r)
  \/ (zip_grid e f g h = Raise e /\ ~ same_shape g h).
Proof.
  unfold same_shape. revert h. induction g as [| row g IH]; intros [| mrow h]; cbn.
  - left. eexists. repeat split; constructor.
  - right. split; [reflexivity |]. intros H. inversion H.
  - right. split; [reflexivity |]. intros H. inversion H.
  - destruct (zip_rows_outcome e f row mrow) as [(r & -> & Hl & Hr) | [-> Hne]]; cbn.
    + destruct (IH h) as [(rest & -> & Hs & Hs') | [-> Hns]]; cbn.
      * left. eexists. split; [reflexivity |]. split; constructor; auto.
      * right. split; [reflexivity |]. intros H. inversion H; subst. tauto.
    + right. split; [reflexivity |]. intros H. inversion H; subst. tauto.
Qed.

Lemma same_shape_map_r {A B C : Type} (f : B -> C) (g : list (list A)) (h : list (list B)) :
  same_shape g (map (map f) h) <-> same_shape g h.
Proof.
  unfold same_shape. revert h. induction g as [| row g IH]; intros [| mrow h]; cbn; split;
    intros H; try (by inversion H); try constructor; inversion H; subst.
  - by rewrite length_map in *.
  - by apply IH.
  - by rewrite length_map.
  - by apply IH.
Qed.

Lemma concat_map_map_nil {A B : Type} (f : A -> B) (g : list (list A)) :
  concat (map (map f) g) = [] <-> concat g = [].
Proof.
  induction g as [| row g IH]; [done |]. cbn.
  destruct row as [| a row]; cbn; [exact IH | split; discriminate].
Qed.

(** The mask that the extractor hands to cv2.bitwise_and. *)
Lemma compute_mean_color_unfold fallback frame m :
  compute_mean_color fallback frame m
  = top ← grid_max (map (map u8) m);
    let m' := if top =? 1 then map (map (fun v => u8 (v * 255))) (map (map u8) m)
              else map (map u8) m in
    masked ← zip_grid CvError bitwise_and_masked frame m';
    let pixels := List.filter all_channels_positive (concat masked) in
    match pixels with
    | [] => Ok fallback
    | _ => Ok (mean_channel red pixels, mean_channel green pixels, mean_channel blue pixels)
    end.
Proof. reflexivity. Qed.

Lemma compute_mean_color_outcome fallback (frame : image) (m : mask) :
  (concat m = [] -> compute_mean_color fallback frame m = Raise ValueError)
  /\ (concat m <> [] -> ~ same_shape frame m ->
      compute_mean_color fallback frame m = Raise CvError)
  /\ (concat m <> [] -> same_shape frame m ->
      exists c, compute_mean_color fallback frame m = Ok c).
Proof.
  rewrite compute_mean_color_unfold. unfold grid_max.
  pose proof (concat_map_map_nil u8 m) as Hnil.
  destruct (concat (map (map u8) m)) as [| v0 rest] eqn:Ec.
  - split; [reflexivity |]. split; intros Hne; exfalso; apply Hne; by apply Hnil.
  - split; [intros E; apply Hnil in E; discriminate E |].
    cbn [mbind result_bind]. set (top := fold_left Z.max rest v0).
    assert (Hshape : forall m', m' = (if top =? 1
                then map (map (fun v => u8 (v * 255))) (map (map u8) m)
                else map (map u8) m) -> (same_shape frame m' <-> same_shape frame m)).
    { intros m' ->. destruct (top =? 1); rewrite ?same_shape_map_r; reflexivity. }
    cbv zeta.
    destruct (zip_grid_outcome CvError bitwise_and_masked frame
                (if top =? 1 then map (map (fun v => u8 (v * 255))) (map (map u8) m)
                 else map (map u8) m)) as [(r & -> & Hs & _) | [-> Hns]].
    + split; intros _ Hsh.
      * exfalso. apply Hsh. by apply (Hshape _ eq_refl).
      * cbn [mbind result_bind]. destruct (List.filter _ _); eauto.
    + split; intros _ Hsh; [reflexivity |].
      exfalso. apply Hns. by apply (Hshape _ eq_refl).
Qed.

(** X14: the two ways the extractor fails.  A mask without cells raises the
    ValueError of max() on a zero-size array; a mask with cells whose shape
    differs from the frame's raises the OpenCV error of bitwise_and; with
    cells and the frame's shape it returns a colour. *)
Theorem compute_mean_color_errors fallback (frame : image) (m : mask) :
  (concat m = [] -> compute_mean_color fallback frame m = Raise ValueError)
  /\ (concat m <> [] -> ~ same_shape frame m ->
      compute_mean_color fallback frame m = Raise CvError)
  /\ (concat m <> [] -> same_shape frame m ->
      exists c, compute_mean_color fallback frame m = Ok c).
Proof. apply compute_mean_color_outcome. Qed.

Lemma compute_mean_color_errors_witness :
  compute_mean_skin_color [] [] = Raise ValueError
  /\ compute_mean_lip_color [[(1, 2, 3)]] [[255; 255]] = Raise CvError.
Proof.
  split.
  - exact (proj1 (compute_mean_color_errors skin_fallback [] []) eq_refl).
  - apply (proj1 (proj2 (compute_mean_color_errors lip_fallback [[(1, 2, 3)]] [[255; 255]]))).
    + discriminate.
    + intros H. inversion H as [| ? ? ? ? Hlen]. discriminate Hlen.
Defined.

Lemma zip_rows_forall {A B C : Type} e (f : A -> B -> C) (P : A -> Prop) (Q : B -> Prop)
    (R : C -> Prop) l k r :
  (forall a b, P a -> Q b -> R (f a b)) -> Forall P l -> Forall Q k ->
  zip_rows e f l k = Ok r -> Forall R r.
Proof.
  intros Hf Hl. revert k r. induction Hl as [| a l Ha Hl IH]; intros [| b k] r Hk H;
    cbn in H; try discriminate H.
  - injection H as <-. constructor.
  - destruct (zip_rows e f l k) as [rest | |] eqn:Er; try discriminate H.
    cbn in H. injection H as <-. inversion Hk; subst.
    constructor; [by apply Hf | by eapply IH].
Qed.

(** A property of the cells of two grids carries over to their combination. *)
Lemma zip_grid_forall {A B C : Type} e (f : A -> B -> C) (P : A -> Prop) (Q : B -> Prop)
    (R : C -> Prop) g h r :
  (forall a b, P a -> Q b -> R (f a b)) -> Forall (Forall P) g -> Forall (Forall Q) h ->
  zip_grid e f g h = Ok r -> Forall (Forall R) r.
Proof.
  intros Hf Hg. revert h r. induction Hg as [| row g Hrow Hg IH]; intros [| mrow h] r Hh H;
    cbn in H; try discriminate H.
  - injection H as <-. constructor.
  - destruct (zip_rows e f row mrow) as [r0 | |] eqn:Er; try discriminate H.
    cbn in H. destruct (zip_grid e f g h) as [rest | |] eqn:Eg; try discriminate H.
    cbn in H. injection H as <-. inversion Hh; subst.
    constructor; [by eapply zip_rows_forall | by eapply IH].
Qed.

Lemma Forall_grid_true {A : Type} (g : list (list A)) : Forall (Forall (fun _ => True)) g.
Proof. apply Forall_forall. intros row _. by apply Forall_forall. Qed.

Lemma Forall_grid_map {A B : Type} (f : A -> B) (P : B -> Prop) (g : list (list A)) :
  Forall (Forall (fun a => P (f a))) g -> Forall (Forall P) (map (map f) g).
Proof.
  intros H. apply Forall_map. eapply Forall_impl; [exact H |]. intros row Hrow.
  by apply Forall_map.
Qed.

(** The mask handed to bitwise_and: the bytes of the given mask, scaled to
    0/255 when their maximum is 1.  Either way a cell is zero there exactly
    when its byte is zero. *)
Lemma effective_mask_cell (top v : Z) :
  let v' := if top =? 1 then u8 (u8 v * 255) else u8 v in
  (u8 v = 0 -> v' = 0) /\ (u8 v <> 0 -> v' <> 0).
Proof.
  cbv zeta. pose proof (u8_range v) as Hv. unfold u8 in *.
  destruct (top =? 1); [| tauto]. split.
  - intros ->. reflexivity.
  - intros Hne E. apply Z.mod_divide in E; [| lia]. destruct E as [q Hq]. lia.
Qed.

Lemma effective_mask_forall (P : Z -> Prop) (top : Z) (m : mask) :
  Forall (Forall (fun v => P (if top =? 1 then u8 (u8 v * 255) else u8 v))) m ->
  Forall (Forall P)
    (if top =? 1 then map (map (fun v => u8 (v * 255))) (map (map u8) m)
     else map (map u8) m).
Proof.
  intros H. destruct (top =? 1).
  - apply Forall_grid_map, Forall_grid_map. exact H.
  - apply Forall_grid_map. exact H.
Qed.

Lemma compute_mean_color_all_zero fallback (frame : image) (m : mask) :
  same_shape frame m -> concat m <> [] -> Forall (Forall (fun v => u8 v = 0)) m ->
  compute_mean_color fallback frame m = Ok fallback.
Proof.
  intros Hs Hne Hz.
  destruct (proj2 (proj2 (compute_mean_color_outcome fallback frame m)) Hne Hs) as [c Hc].
  rewrite Hc. f_equal. revert Hc. rewrite compute_mean_color_unfold.
  destruct (grid_max _) as [top | |]; try discriminate. cbn [mbind result_bind]. cbv zeta.
  destruct (zip_grid _ _ frame _) as [masked | |] eqn:E; try discriminate.
  cbn [mbind result_bind].
  assert (Hm : Forall (Forall (fun p => all_channels_positive p = false)) masked).
  { eapply (zip_grid_forall _ _ (fun _ => True) (fun v => v = 0)); [| | | exact E].
    - intros [[b g] r] v _ ->. reflexivity.
    - apply Forall_grid_true.
    - apply effective_mask_forall. eapply Forall_impl; [exact Hz |]. intros row Hrow.
      eapply Forall_impl; [exact Hrow |]. intros v Hv. cbn beta.
      by apply (effective_mask_cell top v). }
  rewrite (filter_none_positive masked Hm). by intros [= ->].
Qed.

(** X15: under a mask whose bytes are all zero (an all-zero mask, and any
    integer mask whose values are multiples of 256) both extractors return
    their fallback colour, whatever the frame of the same shape holds. *)
Theorem compute_mean_color_zero_mask fallback (frame : image) (m : mask) :
  same_shape frame m -> concat m <> [] -> Forall (Forall (fun v => u8 v = 0)) m ->
  compute_mean_color fallback frame m = Ok fallback.
Proof. apply compute_mean_color_all_zero. Qed.

Lemma compute_mean_color_zero_mask_witness :
  compute_mean_skin_color [[(10, 20, 30); (40, 50, 60)]] [[0; 256]] = Ok skin_fallback.
Proof.
  apply (compute_mean_color_zero_mask skin_fallback [[(10, 20, 30); (40, 50, 60)]] [[0; 256]]).
  - repeat constructor.
  - discriminate.
  - repeat constructor.
Defined.

Lemma mean_channel_range (f : pixel -> Z) (pixels : list pixel) :
  pixels <> [] -> Forall (fun p => 0 <= f p <= 255) pixels ->
  0 <= mean_channel f pixels <= 255.
Proof.
  intros Hne Hall. unfold mean_channel.
  assert (Hsum : 0 <= sum_channel f pixels <= 255 * Z.of_nat (length pixels)).
  { clear Hne. induction Hall as [| p l Hp _ IH]; cbn [sum_channel fold_right length].
    - lia.
    - fold (sum_channel f l). lia. }
  assert (Hn : 0 < Z.of_nat (length pixels)) by (destruct pixels; [done | cbn; lia]).
  rewrite Z.quot_div_nonneg by lia. split.
  - apply Z.div_pos; lia.
  - apply Z.div_le_upper_bound; lia.
Qed.

Lemma Forall_filter_concat {A : Type} (P : A -> Prop) (keep : A -> bool) (g : list (list A)) :
  Forall (Forall P) g -> Forall P (List.filter keep (concat g)).
Proof.
  intros H. apply List.Forall_forall. intros a Ha.
  apply List.filter_In in Ha as [Ha _]. apply in_concat in Ha as (row & Hrow & Ha).
  rewrite List.Forall_forall in H. specialize (H row Hrow).
  rewrite List.Forall_forall in H. by apply H.
Qed.

Lemma compute_mean_color_in_range fallback (frame : image) (m : mask) (c : color) :
  in_range fallback -> u8_image frame ->
  compute_mean_color fallback frame m = Ok c -> in_range c.
Proof.
  intros Hfb Hframe. rewrite compute_mean_color_unfold.
  destruct (grid_max _) as [top | |]; try discriminate. cbn [mbind result_bind]. cbv zeta.
  destruct (zip_grid _ _ frame _) as [masked | |] eqn:E; try discriminate.
  cbn [mbind result_bind].
  assert (Hm : Forall (Forall u8_pixel) masked).
  { eapply (zip_grid_forall _ _ u8_pixel (fun _ => True)); [| exact Hframe | | exact E].
    - intros p v Hp _. destruct (bitwise_and_masked_cases p v) as [-> | ->];
        [cbn; lia | exact Hp].
    - apply Forall_grid_true. }
  pose proof (Forall_filter_concat u8_pixel all_channels_positive masked Hm) as Hp.
  destruct (List.filter all_channels_positive (concat masked)) as [| p0 rest] eqn:Ef.
  - by intros [= <-].
  - intros [= <-]. cbn [in_range].
    repeat split; apply mean_channel_range; try discriminate;
      (eapply Forall_impl; [exact Hp |]); intros [[b g] r] (? & ? & ?); cbn; lia.
Qed.

(** X16: on a frame of bytes, whatever either extractor returns is a colour
    with channels in 0..255: the truncated mean of bytes, or the fallback. *)
Theorem compute_mean_colors_in_range (frame : image) (m : mask) (c : color) :
  u8_image frame ->
  (compute_mean_skin_color frame m = Ok c -> in_range c)
  /\ (compute_mean_lip_color frame m = Ok c -> in_range c).
Proof.
  intros Hframe. split; apply compute_mean_color_in_range; try exact Hframe; cbn; lia.
Qed.

Lemma compute_mean_colors_in_range_witness :
  u8_image [[(1, 2, 255); (3, 4, 5)]]
  /\ compute_mean_skin_color [[(1, 2, 255); (3, 4, 5)]] [[255; 1]] = Ok (130, 3, 2)
  /\ in_range (130, 3, 2).
Proof.
  assert (Hu : u8_image [[(1, 2, 255); (3, 4, 5)]]) by (repeat constructor; cbn; lia).
  assert (Hc : compute_mean_skin_color [[(1, 2, 255); (3, 4, 5)]] [[255; 1]] = Ok (130, 3, 2))
    by (vm_compute; reflexivity).
  split; [exact Hu |]. split; [exact Hc |].
  exact (proj1 (compute_mean_colors_in_range _ _ _ Hu) Hc).
Defined.

Lemma cell_at_map {A B : Type} (f : A -> B) (g : list (list A)) (y x : nat) :
  cell_at (map (map f) g) y x = f <$> cell_at g y x.
Proof.
  unfold cell_at. rewrite list_lookup_fmap. destruct (g !! y) as [row |]; [| reflexivity].
  cbn. apply list_lookup_fmap.
Qed.

Lemma cell_at_in_concat {A : Type} (g : list (list A)) (y x : nat) (a : A) :
  cell_at g y x = Some a -> In a (concat g).
Proof.
  unfold cell_at. destruct (g !! y) as [row |] eqn:Ey; [| discriminate]. cbn. intros Hx.
  apply in_concat. exists row. split; apply list_elem_of_In.
  - by eapply list_elem_of_lookup_2.
  - by eapply list_elem_of_lookup_2.
Qed.

Lemma mean_channel_const (f : pixel -> Z) (pixels : list pixel) (p : pixel) :
  pixels <> [] -> Forall (fun q => q = p) pixels -> mean_channel f pixels = f p.
Proof.
  intros Hne Hall. unfold mean_channel.
  assert (Hsum : sum_channel f pixels = f p * Z.of_nat (length pixels)).
  { clear Hne. induction Hall as [| q l -> _ IH]; cbn [sum_channel fold_right length].
    - lia.
    - fold (sum_channel f l). lia. }
  rewrite Hsum. apply Z.quot_mul. destruct pixels; [done | cbn; lia].
Qed.

(** Where every pixel of the frame is [p], with no channel zero, and some
    mask byte is non-zero, the mean is [p] itself, returned as (R, G, B). *)
Lemma compute_mean_color_uniform fallback (frame : image) (m : mask) (p : pixel)
    (y x : nat) (mv : Z) :
  same_shape frame m -> Forall (Forall (fun q => q = p)) frame ->
  all_channels_positive p = true ->
  cell_at frame y x = Some p -> cell_at m y x = Some mv -> u8 mv <> 0 ->
  compute_mean_color fallback frame m = Ok (red p, green p, blue p).
Proof.
  intros Hs Hframe Hpos Hcp Hcm Hmv.
  assert (Hne : concat m <> []).
  { intros E. apply cell_at_in_concat in Hcm. by rewrite E in Hcm. }
  destruct (proj2 (proj2 (compute_mean_color_outcome fallback frame m)) Hne Hs) as [c Hc].
  rewrite Hc. f_equal. revert Hc. rewrite compute_mean_color_unfold.
  destruct (grid_max _) as [top | |]; try discriminate. cbn [mbind result_bind]. cbv zeta.
  set (m' := if top =? 1 then map (map (fun v => u8 (v * 255))) (map (map u8) m)
             else map (map u8) m).
  destruct (zip_grid _ _ frame m') as [masked | |] eqn:E; try discriminate.
  cbn [mbind result_bind].
  assert (Hcm' : cell_at m' y x = Some (if top =? 1 then u8 (u8 mv * 255) else u8 mv)).
  { unfold m'. destruct (top =? 1); rewrite !cell_at_map, Hcm; reflexivity. }
  pose proof (zip_grid_lookup _ _ _ _ _ _ _ _ _ E Hcp Hcm') as Hcell.
  assert (Hcell' : cell_at masked y x = Some p).
  { rewrite Hcell. f_equal. destruct p as [[b g] r]. unfold bitwise_and_masked.
    destruct (Z.eqb_spec (if top =? 1 then u8 (u8 mv * 255) else u8 mv) 0) as [E0 | _].
    - exfalso. by apply (proj2 (effective_mask_cell top mv)).
    - by rewrite !Z.land_diag. }
  assert (Hm : Forall (Forall (fun q => q = (0, 0, 0) \/ q = p)) masked).
  { eapply (zip_grid_forall _ _ (fun q => q = p) (fun _ => True)); [| exact Hframe | | exact E].
    - intros q v -> _. apply bitwise_and_masked_cases.
    - apply Forall_grid_true. }
  assert (Hall : Forall (fun q => q = p) (List.filter all_channels_positive (concat masked))).
  { apply List.Forall_forall. intros q Hq. apply List.filter_In in Hq as [Hq Hq'].
    pose proof (Forall_filter_concat _ (fun _ => true) masked Hm) as Hall.
    rewrite List.Forall_forall in Hall.
    destruct (Hall q) as [-> | ->]; [| discriminate Hq' | reflexivity].
    apply List.filter_In. by split. }
  assert (Hin : In p (List.filter all_channels_positive (concat masked))).
  { apply List.filter_In. split; [by eapply cell_at_in_concat | exact Hpos]. }
  destruct (List.filter all_channels_positive (concat masked)) as [| p0 rest] eqn:Ef;
    [destruct Hin |].
  intros [= <-]. by rewrite !(mean_channel_const _ (p0 :: rest) p) by (done || exact Hall).
Qed.

(** X17: on a frame whose pixels all equal one BGR pixel (b, g, r) without a
    zero channel, under a mask of the same shape with a non-zero byte, both
    extractors return (r, g, b): the pixel itself, reordered from BGR to
    RGB, and not the fallback. *)
Theorem compute_mean_colors_uniform (frame : image) (m : mask) (b g r : Z)
    (y x : nat) (mv : Z) :
  same_shape frame m -> Forall (Forall (fun q => q = (b, g, r))) frame ->
  0 < b -> 0 < g -> 0 < r ->
  cell_at frame y x = Some (b, g, r) -> cell_at m y x = Some mv -> u8 mv <> 0 ->
  compute_mean_skin_color frame m = Ok (r, g, b)
  /\ compute_mean_lip_color frame m = Ok (r, g, b).
Proof.
  intros Hs Hf Hb Hg Hr Hcp Hcm Hmv.
  assert (Hpos : all_channels_positive (b, g, r) = true).
  { cbn. apply andb_true_iff. split; [apply andb_true_iff; split |]; by apply Z.ltb_lt. }
  split.
  - exact (compute_mean_color_uniform skin_fallback frame m (b, g, r) y x mv
             Hs Hf Hpos Hcp Hcm Hmv).
  - exact (compute_mean_color_uniform lip_fallback frame m (b, g, r) y x mv
             Hs Hf Hpos Hcp Hcm Hmv).
Qed.

Lemma compute_mean_colors_uniform_witness :
  compute_mean_skin_color [[(30, 60, 90); (30, 60, 90)]] [[0; 1]] = Ok (90, 60, 30).
Proof.
  apply (compute_mean_colors_uniform [[(30, 60, 90); (30, 60, 90)]] [[0; 1]] 30 60 90 0 1 1).
  - repeat constructor.
  - repeat constructor.
  - lia.
  - lia.
  - lia.
  - reflexivity.
  - reflexivity.
  - discriminate.
Defined.

(** ** Compositor: shape, range and the two ends of the opacity scale *)







(** X20: with opacity 1 and a colour of bytes, every pixel under a non-zero
    mask value becomes the colour tuple as it is given, first component in
    the blue channel (no RGB-to-BGR conversion takes place), and every pixel
    under a zero mask value becomes black. *)
Theorem apply_makeup_directly_opacity_1_cells (img : image) (m : mask) (c0 c1 c2 : Z)
    (out : image) (y x : nat) (p : pixel) (mv : Z) :
  u8_pixel (c0, c1, c2) ->
  apply_makeup_directly img m (c0, c1, c2) 1%Q = Ok out ->
  cell_at img y x = Some p -> cell_at m y x = Some mv ->
  cell_at out y x = Some (if mv =? 0 then (0, 0, 0) else (c0, c1, c2)).
Proof.
  intros (H0 & H1 & H2) H Hp Hm.
  rewrite (apply_makeup_directly_at _ _ _ _ _ _ _ _ _ H Hp Hm). f_equal.
  destruct (Z.eqb_spec mv 0) as [-> | Hne].
  - apply composite_pixel_opacity_1_unmasked.
  - rewrite composite_pixel_opacity_1_masked by exact Hne.
    unfold u8. by rewrite !Z.mod_small by lia.
Qed.

Lemma apply_makeup_directly_opacity_1_cells_witness :
  cell_at [[(0, 0, 0); (255, 0, 0)]] 0 1 = Some (255, 0, 0).
Proof.
  apply (apply_makeup_directly_opacity_1_cells
           [[(100, 100, 100); (10, 20, 30)]] [[0; 255]] 255 0 0
           [[(0, 0, 0); (255, 0, 0)]] 0 1 (10, 20, 30) 255).
  - cbn. lia.
  - vm_compute. reflexivity.
  - reflexivity.
  - reflexivity.
Defined.







(** ** Mask builder: what it reads of the landmarks *)

Lemma resolve_agree (m1 m2 : gmap Z (Z * Z)) (pts : list Z) :
  Forall (fun idx => m1 !! idx = m2 !! idx) pts -> resolve m1 pts = resolve m2 pts.
Proof.
  unfold resolve. induction 1 as [| idx pts Hidx _ IH]; [reflexivity |].
  cbn [omap list_omap]. by rewrite Hidx, IH.
Qed.

Lemma face_loop_agree (fillPoly : polygon_filler) removed (m1 m2 : gmap Z (Z * Z))
    regions (m0 : mask) :
  Forall (fun idx => m1 !! idx = m2 !! idx) (painted_indices regions removed) ->
  fold_left (fun face_mask '(feature, feature_points) =>
      if existsb (String.eqb feature) removed then face_mask
      else
        match resolve m1 feature_points with
        | [] => face_mask
        | points => fillPoly face_mask points 255
        end)
    regions m0
  = fold_left (fun face_mask '(feature, feature_points) =>
      if existsb (String.eqb feature) removed then face_mask
      else
        match resolve m2 feature_points with
        | [] => face_mask
        | points => fillPoly face_mask points 255
        end)
    regions m0.
Proof.
  revert m0. induction regions as [| [feature pts] regions IH]; intros m0 H; [reflexivity |].
  cbn [fold_left]. unfold painted_indices in H. cbn [flat_map] in H.
  apply Forall_app in H as [Hpts Hrest].
  destruct (existsb (String.eqb feature) removed); [by apply IH |].
  rewrite (resolve_agree m1 m2 pts Hpts). by apply IH.
Qed.

Lemma masks_agree (fillPoly : polygon_filler) regions removed (shp : nat * nat)
    (m1 m2 : gmap Z (Z * Z)) (fc fc' lc lc' : list Z) :
  (Forall (fun idx => m1 !! idx = m2 !! idx) (painted_indices regions removed) ->
   (add_reverse_mask_and_lips_on fillPoly regions removed shp m1 fc lc).1
   = (add_reverse_mask_and_lips_on fillPoly regions removed shp m2 fc' lc').1)
  /\ (Forall (fun idx => m1 !! idx = m2 !! idx) lc ->
      (add_reverse_mask_and_lips_on fillPoly regions removed shp m1 fc lc).2
      = (add_reverse_mask_and_lips_on fillPoly regions removed shp m2 fc' lc).2).
Proof.
  destruct shp as [h w]. unfold add_reverse_mask_and_lips_on. cbn [fst snd]. split.
  - apply face_loop_agree.
  - intros H. by rewrite (resolve_agree m1 m2 lc H).
Qed.

(** X22: the builder reads the landmarks only where it looks them up.  Two
    landmark maps that agree on the indices of the regions that are not
    removed give the same face mask, whatever the connection lists are
    (face_connections is never read, and the lip indices do not reach the
    face mask); two maps that agree on the lip indices give the same lips
    mask. *)
Theorem masks_read_only_listed_landmarks (fillPoly : polygon_filler) (h w : nat)
    (m1 m2 : gmap Z (Z * Z)) (fc fc' lc lc' : list Z) :
  (Forall (fun idx => m1 !! idx = m2 !! idx) (painted_indices face_points features_to_remove) ->
   (add_reverse_mask_and_lips fillPoly (h, w) m1 fc lc).1
   = (add_reverse_mask_and_lips fillPoly (h, w) m2 fc' lc').1)
  /\ (Forall (fun idx => m1 !! idx = m2 !! idx) lc ->
      (add_reverse_mask_and_lips fillPoly (h, w) m1 fc lc).2
      = (add_reverse_mask_and_lips fillPoly (h, w) m2 fc' lc).2).
Proof. apply masks_agree. Qed.

Lemma masks_read_only_listed_landmarks_witness :
  (add_reverse_mask_and_lips fill_bounding_box (4, 5)%nat sample_landmarks [] [61; 17]).2
  = (add_reverse_mask_and_lips fill_bounding_box (4, 5)%nat
       (<[1 := (2, 2)]> sample_landmarks) [7] [61; 17]).2.
Proof.
  apply (proj2 (masks_read_only_listed_landmarks fill_bounding_box 4 5 sample_landmarks
                  (<[1 := (2, 2)]> sample_landmarks) [] [7] [61; 17] [])).
  repeat constructor.
Defined.

(** X23: when none of the indices the builder looks up is among the
    landmarks (the landmarks may well hold other indices), both masks are
    entirely zero, whatever the polygon filler does. *)
Theorem masks_zero_when_nothing_resolves (fillPoly : polygon_filler) (h w : nat)
    (idx_to_coordinates : gmap Z (Z * Z)) (face_connections lip_connections : list Z) :
  Forall (fun idx => idx_to_coordinates !! idx = None)
    (painted_indices face_points features_to_remove) ->
  Forall (fun idx => idx_to_coordinates !! idx = None) lip_connections ->
  add_reverse_mask_and_lips fillPoly (h, w) idx_to_coordinates
    face_connections lip_connections = (zeros h w, zeros h w).
Proof.
  intros Hf Hl. unfold add_reverse_mask_and_lips, add_reverse_mask_and_lips_on.
  rewrite (face_loop_agree fillPoly features_to_remove idx_to_coordinates ∅).
  - rewrite face_loop_empty, (resolve_agree idx_to_coordinates ∅), resolve_empty; [done |].
    eapply Forall_impl; [exact Hl |]. intros idx ->. by rewrite lookup_empty.
  - eapply Forall_impl; [exact Hf |]. intros idx ->. by rewrite lookup_empty.
Qed.

Lemma masks_zero_when_nothing_resolves_witness :
  add_reverse_mask_and_lips fill_bounding_box (4, 5)%nat
    (<[1 := (2, 2)]> (<[468 := (3, 1)]> ∅)) [] [61; 17] = (zeros 4 5, zeros 4 5).
Proof.
  apply masks_zero_when_nothing_resolves.
  - apply (bool_decide_unpack _). vm_compute. exact I.
  - repeat constructor.
Defined.

(** ** Landmark reader *)

Lemma read_landmarks_loop_cons (to_px : pixel_mapper) (w h : nat) (idx : Z)
    (lm : MediaPipe.landmark) rest (d0 : gmap Z (Z * Z)) :
  read_landmarks_loop to_px w h ((idx, lm) :: rest) d0
  = read_landmarks_loop to_px w h rest
      match to_px (MediaPipe.lx lm) (MediaPipe.ly lm) w h with
      | Some px => <[idx := px]> d0
      | None => d0
      end.
Proof. reflexivity. Qed.

Lemma read_landmarks_loop_lookup (to_px : pixel_mapper) (w h : nat)
    (l : list MediaPipe.landmark) (start : Z) (d0 : gmap Z (Z * Z)) (idx : Z) :
  read_landmarks_loop to_px w h (enumerate_from start l) d0 !! idx
  = match (if idx <? start then None
           else lm ← l !! Z.to_nat (idx - start);
                to_px (MediaPipe.lx lm) (MediaPipe.ly lm) w h) with
    | Some px => Some px
    | None => d0 !! idx
    end.
Proof.
  revert start d0. induction l as [| a l IH]; intros start d0.
  - cbn. by destruct (idx <? start).
  - cbn [enumerate_from]. rewrite read_landmarks_loop_cons, IH.
    destruct (Z.ltb_spec idx start) as [Hlt | Hge].
    + destruct (Z.ltb_spec idx (start + 1)) as [_ | ?]; [| lia].
      destruct (to_px _ _ w h); [| reflexivity]. rewrite lookup_insert_ne by lia. reflexivity.
    + destruct (Z.ltb_spec idx (start + 1)) as [Hlt | Hge'].
      * assert (idx = start) as -> by lia. rewrite Z.sub_diag.
        change ((a :: l) !! Z.to_nat 0 ≫= _)
          with (to_px (MediaPipe.lx a) (MediaPipe.ly a) w h).
        destruct (to_px _ _ w h); [by rewrite lookup_insert_eq | reflexivity].
      * replace (Z.to_nat (idx - start)) with (S (Z.to_nat (idx - (start + 1)))) by lia.
        change ((a :: l) !! S (Z.to_nat (idx - (start + 1))))
          with (l !! Z.to_nat (idx - (start + 1))).
        destruct (l !! Z.to_nat (idx - (start + 1)) ≫= _); [reflexivity |].
        destruct (to_px _ _ w h); [| reflexivity]. rewrite lookup_insert_ne by lia. reflexivity.
Qed.

Lemma read_landmarks_outcome (process : face_mesh) (to_px : pixel_mapper) (img : image)
    (face_landmarks : list MediaPipe.landmark) others :
  process img = Some (face_landmarks :: others) ->
  exists d, read_landmarks process to_px img = Ok (Some d)
    /\ forall idx, d !! idx
                   = pixel_of_landmark to_px (shape img).2 (shape img).1 face_landmarks idx.
Proof.
  intros E. unfold read_landmarks. rewrite E. destruct (shape img) as [h w] eqn:Es.
  eexists. split; [reflexivity |]. intros idx. unfold enumerate.
  rewrite read_landmarks_loop_lookup, lookup_empty, Z.sub_0_r. unfold pixel_of_landmark.
  cbn [fst snd]. destruct (idx <? 0); [reflexivity |]. by destruct (_ ≫= _).
Qed.

(** X24: what the reader returns.  Without a detected face it returns None.
    With faces, it returns a dictionary that holds, under each index of the
    first face's landmark list, the pixel coordinates of that landmark when
    the mapper gives any, and nothing else: no negative key, no key beyond
    the list, no key for a landmark the mapper rejects, nothing of the other
    faces. *)
Theorem read_landmarks_lookup (process : face_mesh) (to_px : pixel_mapper) (img : image) :
  (process img = None -> read_landmarks process to_px img = Ok None)
  /\ (forall face_landmarks others,
       process img = Some (face_landmarks :: others) ->
       exists d, read_landmarks process to_px img = Ok (Some d)
         /\ forall idx, d !! idx
              = pixel_of_landmark to_px (shape img).2 (shape img).1 face_landmarks idx).
Proof.
  split.
  - intros E. unfold read_landmarks. by rewrite E.
  - intros face_landmarks others. apply read_landmarks_outcome.
Qed.

Lemma read_landmarks_lookup_witness :
  exists d, read_landmarks two_faces scale_to_frame (uniform_image 2 4 (10, 20, 30))
            = Ok (Some d)
    /\ forall idx, d !! idx
         = pixel_of_landmark scale_to_frame 4 2
             [MediaPipe.Build_landmark (1 # 2) (1 # 4); MediaPipe.Build_landmark (3 # 2) (1 # 4)]
             idx.
Proof.
  apply (proj2 (read_landmarks_lookup two_faces scale_to_frame (uniform_image 2 4 (10, 20, 30)))
           _ [[MediaPipe.Build_landmark (1 # 8) (1 # 8); MediaPipe.Build_landmark (1 # 8) (1 # 8)]]).
  reflexivity.
Defined.

Lemma read_landmarks_loop_rejected (to_px : pixel_mapper) (w h : nat)
    (l : list MediaPipe.landmark) (start : Z) (d0 : gmap Z (Z * Z)) :
  Forall (fun lm => to_px (MediaPipe.lx lm) (MediaPipe.ly lm) w h = None) l ->
  read_landmarks_loop to_px w h (enumerate_from start l) d0 = d0.
Proof.
  intros H. revert start. induction H as [| a l Ha _ IH]; intros start; [reflexivity |].
  cbn [enumerate_from]. rewrite read_landmarks_loop_cons, Ha. apply IH.
Qed.

Lemma masks_of_no_landmarks (fillPoly : polygon_filler) regions removed (h w : nat) fc lc :
  add_reverse_mask_and_lips_on fillPoly regions removed (h, w) ∅ fc lc
  = (zeros h w, zeros h w).
Proof. unfold add_reverse_mask_and_lips_on. by rewrite face_loop_empty, resolve_empty. Qed.

Lemma same_shape_zeros (frame : image) (h w : nat) :
  length frame = h -> Forall (fun row => length row = w) frame ->
  same_shape frame (zeros h w).
Proof.
  intros <- Hrows. unfold same_shape, zeros.
  induction Hrows as [| row frame Hrow _ IH]; cbn; constructor; [| exact IH].
  by rewrite length_replicate.
Qed.

Lemma concat_empty_rows {A : Type} (g : list (list A)) :
  Forall (fun row => length row = 0%nat) g -> concat g = [].
Proof.
  induction 1 as [| row g Hrow _ IH]; [reflexivity |].
  destruct row; [exact IH | discriminate Hrow].
Qed.

Lemma zeros_cells (h w : nat) : (0 < h)%nat -> (0 < w)%nat -> concat (zeros h w) <> [].
Proof.
  unfold zeros. destruct h as [| h]; [lia |]. destruct w as [| w]; [lia |]. discriminate.
Qed.

(** X25: reader, builder and extractors in a row.  When a face is detected
    but the mapper rejects every one of its landmarks, the reader returns an
    empty dictionary (not None), the builder gives two zero masks of the
    frame's size, and the extractors return their fallback colours
    (200, 180, 160) and (150, 50, 70), whatever the frame shows. *)
Theorem rejected_landmarks_give_fallback_colours (process : face_mesh)
    (to_px : pixel_mapper) (fillPoly : polygon_filler) (frame : image)
    (face_landmarks : list MediaPipe.landmark) others
    (face_connections lip_connections : list Z) :
  concat frame <> [] ->
  Forall (fun row => length row = (shape frame).2) frame ->
  process frame = Some (face_landmarks :: others) ->
  Forall (fun lm => to_px (MediaPipe.lx lm) (MediaPipe.ly lm) (shape frame).2 (shape frame).1
                    = None) face_landmarks ->
  read_landmarks process to_px frame = Ok (Some ∅)
  /\ let masks := add_reverse_mask_and_lips fillPoly (shape frame) ∅
                    face_connections lip_connections in
     masks = (zeros (shape frame).1 (shape frame).2, zeros (shape frame).1 (shape frame).2)
     /\ compute_mean_skin_color frame masks.1 = Ok (200, 180, 160)
     /\ compute_mean_lip_color frame masks.2 = Ok (150, 50, 70).
Proof.
  intros Hne Hrect E Hrej. destruct (shape frame) as [h w] eqn:Es. cbn [fst snd] in *.
  assert (Hh : length frame = h) by (unfold shape in Es; congruence).
  assert (Hw : length (hd [] frame) = w) by (unfold shape in Es; congruence).
  split.
  - unfold read_landmarks. rewrite E, Es. unfold enumerate.
    by rewrite read_landmarks_loop_rejected.
  - cbv zeta. unfold add_reverse_mask_and_lips. rewrite masks_of_no_landmarks. cbn [fst snd].
    split; [reflexivity |].
    assert (Hshape : same_shape frame (zeros h w)) by (by apply same_shape_zeros).
    assert (Hcells : concat (zeros h w) <> []).
    { destruct frame as [| row frame]; [done |]. apply zeros_cells.
      - cbn in Hh. lia.
      - cbn in Hw. subst w. destruct row; [| cbn; lia].
        exfalso. apply Hne. by apply concat_empty_rows. }
    assert (Hzero : Forall (Forall (fun v => u8 v = 0)) (zeros h w)).
    { unfold zeros. apply Forall_replicate, Forall_replicate. reflexivity. }
    split; apply compute_mean_color_all_zero; assumption.
Qed.

Lemma rejected_landmarks_give_fallback_colours_witness :
  read_landmarks face_off_frame scale_to_frame (uniform_image 2 4 (10, 20, 30)) = Ok (Some ∅)
  /\ let masks := add_reverse_mask_and_lips fill_bounding_box
                    (shape (uniform_image 2 4 (10, 20, 30))) ∅ [] [61; 17] in
     masks = (zeros (shape (uniform_image 2 4 (10, 20, 30))).1
                    (shape (uniform_image 2 4 (10, 20, 30))).2,
              zeros (shape (uniform_image 2 4 (10, 20, 30))).1
                    (shape (uniform_image 2 4 (10, 20, 30))).2)
     /\ compute_mean_skin_color (uniform_image 2 4 (10, 20, 30)) masks.1 = Ok (200, 180, 160)
     /\ compute_mean_lip_color (uniform_image 2 4 (10, 20, 30)) masks.2 = Ok (150, 50, 70).
Proof.
  apply (rejected_landmarks_give_fallback_colours face_off_frame scale_to_frame
           fill_bounding_box (uniform_image 2 4 (10, 20, 30))
           [MediaPipe.Build_landmark (3 # 2) (1 # 4); MediaPipe.Build_landmark (-1 # 2) (1 # 4)]
           [] [] [61; 17]).
  - discriminate.
  - repeat constructor.
  - reflexivity.
  - repeat constructor.
Defined.

(** ** Label tables *)

Lemma invert_from_other (mapping : list (string * Z)) (inv0 : gmap Z string) (pred : Z) :
  ~ In pred (map snd mapping) ->
  fold_left (fun inv '(k, v) => <[v := k]> inv) mapping inv0 !! pred = inv0 !! pred.
Proof.
  revert inv0. induction mapping as [| [k v] mapping IH]; intros inv0 Hn; [reflexivity |].
  cbn [fold_left]. cbn in Hn. rewrite IH by tauto. apply lookup_insert_ne. tauto.
Qed.

Lemma invert_from_entry (mapping : list (string * Z)) (inv0 : gmap Z string) k v :
  List.NoDup (map snd mapping) -> In (k, v) mapping ->
  fold_left (fun inv '(k, v) => <[v := k]> inv) mapping inv0 !! v = Some k.
Proof.
  revert inv0. induction mapping as [| [k0 v0] mapping IH]; intros inv0 Hnd Hin; [contradiction |].
  cbn [fold_left]. cbn in Hnd. inversion Hnd as [| ? ? Hv0 Hrest]; subst.
  destruct Hin as [[= -> ->] | Hin].
  - rewrite invert_from_other by exact Hv0. apply lookup_insert_eq.
  - by apply IH.
Qed.

(** X26: inverting a label table and looking an id up.  When no id occurs
    twice in the table, every entry (label, id) is decoded back to its
    label, and an id that is not in the table is decoded as Unknown, for
    every table. *)
Theorem get_label_of_inverted (mapping : list (string * Z)) :
  List.NoDup (map snd mapping) ->
  (forall k v, In (k, v) mapping -> get_label (invert mapping) v = k)
  /\ (forall pred, ~ In pred (map snd mapping) ->
      get_label (invert mapping) pred = "Unknown"%string).
Proof.
  intros Hnd. unfold get_label, invert. split.
  - intros k v Hin. by rewrite (invert_from_entry mapping ∅ k v Hnd Hin).
  - intros pred Hn. by rewrite invert_from_other, lookup_empty.
Qed.

Lemma get_label_of_inverted_witness :
  (forall k v, In (k, v) hair_color_label -> get_label (invert hair_color_label) v = k)
  /\ (forall pred, ~ In pred (map snd hair_color_label) ->
      get_label (invert hair_color_label) pred = "Unknown"%string).
Proof.
  apply (get_label_of_inverted hair_color_label).
  repeat constructor; cbn; intros H; repeat destruct H as [H | H]; try discriminate H; exact H.
Defined.

Lemma get_label_known (mapping : list (string * Z)) (n : Z) (pred : Z) :
  map snd mapping = seqZ 0 n ->
  Forall (fun k => k <> "Unknown"%string) (map fst mapping) ->
  get_label (invert mapping) pred = "Unknown"%string <-> ~ (0 <= pred < n).
Proof.
  intros Hids Hlabels.
  assert (Hnd : List.NoDup (map snd mapping)).
  { rewrite Hids. apply NoDup_ListNoDup, NoDup_seqZ. }
  split.
  - intros Hu Hr.
    assert (Hin : In pred (map snd mapping)).
    { rewrite Hids. apply list_elem_of_In, elem_of_seqZ. lia. }
    apply in_map_iff in Hin as ([k v] & Hv & Hin). cbn in Hv. subst v.
    unfold get_label, invert in Hu. rewrite (invert_from_entry mapping ∅ k pred Hnd Hin) in Hu.
    cbn in Hu. rewrite List.Forall_forall in Hlabels. apply (Hlabels k); [| exact Hu].
    apply in_map_iff. by exists (k, pred).
  - intros Hr. unfold get_label, invert. rewrite invert_from_other, lookup_empty; [done |].
    rewrite Hids. intros Hin. apply list_elem_of_In, elem_of_seqZ in Hin. lia.
Qed.

(** X27: the label decoding of the service.  With the four tables of
    [get_labels] inverted, a predicted class id is decoded as Unknown exactly
    when it lies outside the ids of its table: outside 0..5 for eye colour
    and eyebrow colour, 0..7 for hair colour, 0..3 for skin tone. *)
Theorem service_labels_unknown_iff_out_of_range (pred : Z) :
  (get_label eye_color_inv pred = "Unknown"%string <-> ~ (0 <= pred < 6))
  /\ (get_label hair_color_inv pred = "Unknown"%string <-> ~ (0 <= pred < 8))
  /\ (get_label eyebrow_color_inv pred = "Unknown"%string <-> ~ (0 <= pred < 6))
  /\ (get_label skin_tone_inv pred = "Unknown"%string <-> ~ (0 <= pred < 4)).
Proof.
  split; [| split; [| split]];
    (apply get_label_known; [reflexivity | repeat constructor; discriminate]).
Qed.

